(** * fs-repo-migrations: the migration-step engine

    A shallow embedding of the two migration steps of the repository whose
    code is available,

    - [ipfs-1-to-2/migration/migration.go] (package [mg1]): the structural
      migration that moves blocks from leveldb to flatfs and renames the
      repo directory, and
    - [ipfs-8-to-9/migration/migration.go] (package [mg8]): the re-keying
      migration that swaps CIDv1 keys for raw multihashes and keeps a
      backup file for [Revert],

    followed by the properties of both.  Stateful code is written in a
    small state monad over a "world" that holds the files, stores and locks
    the step touches, the faults the environment injects, and the sequence
    of operations performed so far. *)

From stdpp Require Import gmap strings list fin_maps.
From Stdlib Require Import Ascii String ZArith.

Open Scope string_scope.

(** ** Byte strings

    Go strings are byte sequences; they are [string]s here.  The helpers
    below are the pieces of the Go standard library the migrations call. *)

Definition LF : ascii := "010"%char.
Definition CR : ascii := "013"%char.
Definition comma : ascii := ","%char.

(** [s[n:]] for [n <= len(s)]. *)
Fixpoint str_drop (n : nat) (s : string) : string :=
  match n, s with
  | O, _ => s
  | S n', String _ s' => str_drop n' s'
  | S _, EmptyString => EmptyString
  end.

(** [s[:n]] for [n <= len(s)]. *)
Fixpoint str_take (n : nat) (s : string) : string :=
  match n, s with
  | O, _ => EmptyString
  | S n', String c s' => String c (str_take n' s')
  | S _, EmptyString => EmptyString
  end.

(** [strings.HasPrefix(s, p)]. *)
Fixpoint has_prefix (p s : string) : bool :=
  match p, s with
  | EmptyString, _ => true
  | String a p', String b s' => if decide (a = b) then has_prefix p' s' else false
  | String _ _, EmptyString => false
  end.

(** [strings.Replace(s, old, new, 1)] for a non-empty [old]: the first
    occurrence of [old] is replaced, and [s] is returned unchanged when
    there is none. *)
Fixpoint replace_first (old new s : string) : string :=
  if has_prefix old s then new +:+ str_drop (String.length old) s
  else match s with
       | EmptyString => EmptyString
       | String c s' => String c (replace_first old new s')
       end.

(** [strings.Split(s, sep)] for a one-byte separator.  The result is never
    empty: the empty string splits into one empty field. *)
Fixpoint strings_Split (sep : ascii) (s : string) : list string :=
  match s with
  | EmptyString => [EmptyString]
  | String c s' =>
      if decide (c = sep) then EmptyString :: strings_Split sep s'
      else match strings_Split sep s' with
           | h :: t => String c h :: t
           | [] => [String c EmptyString]
           end
  end.

(** [dropCR] of package [bufio]: a trailing carriage return is removed. *)
Fixpoint dropCR (s : string) : string :=
  match s with
  | EmptyString => EmptyString
  | String c EmptyString => if decide (c = CR) then EmptyString else s
  | String c s' => String c (dropCR s')
  end.

(** The tokens [bufio.Scanner] delivers with its default split function
    [bufio.ScanLines]: every newline-terminated line without its
    terminator, and a final unterminated line when it is not empty.  [cur]
    holds the bytes of the line being read. *)
Fixpoint scan_lines_from (cur data : string) : list string :=
  match data with
  | EmptyString =>
      match cur with
      | EmptyString => []
      | _ => [dropCR cur]
      end
  | String c rest =>
      if decide (c = LF) then dropCR cur :: scan_lines_from EmptyString rest
      else scan_lines_from (cur +:+ String c EmptyString) rest
  end.

Definition ScanLines (data : string) : list string :=
  scan_lines_from EmptyString data.

(** The concatenation of a list of strings. *)
Definition str_concat (l : list string) : string :=
  foldr String.append EmptyString l.

(** Membership of a byte in a string. *)
Fixpoint str_mem (c : ascii) (s : string) : bool :=
  match s with
  | EmptyString => false
  | String a s' => if decide (a = c) then true else str_mem c s'
  end.

(** ** Keys, values, errors *)

(** A datastore key in its string form ([Key.String()]). *)
Abbreviation Key := string (only parsing).
Abbreviation Value := (list Byte.byte) (only parsing).

(** [migrate.Options]. *)
Record Options := { Path : string; Verbose : bool }.

(** The operations of the environment that can fail on their own account
    (a fault of the file system or of a collaborator), as opposed to
    failing because of the state they find. *)
Inductive syscall :=
| SysLock            (* repolock.Lock2 *)
| SysOpenStore       (* plugin loading, config and datastore construction *)
| SysStatBackup      (* os.Stat of the backup file *)
| SysOpenBackup      (* os.OpenFile / os.Open of the backup file *)
| SysCloseBackup     (* f.Close *)
| SysRemoveBackup    (* os.Remove of the backup file *)
| SysWriteVersion    (* mfsr WriteVersion *)
| SysMkdir (path : string)       (* os.Mkdir *)
| SysRemove (path : string)      (* os.Remove of a directory *)
| SysRemoveAll (path : string)   (* os.RemoveAll *)
| SysRename (oldpath newpath : string)   (* os.Rename *)
| SysLeveldb         (* leveldb.NewDatastore *)
| SysFlatfs.         (* flatfs.New *)

Inductive error :=
| ErrLocked                                   (* the repo lock is held *)
| ErrVersionsDiffer (expected actual : string)
| ErrNoVersionFile (path : string)
| ErrNotFound (k : Key)                       (* datastore: no such key *)
| ErrGet (k : Key)                            (* datastore read failure *)
| ErrPut (k : Key)                            (* datastore write failure *)
| ErrDelete (k : Key)                         (* datastore delete failure *)
| ErrQuery                                    (* datastore query failure *)
| ErrMapping (k : Key) (reason : string)      (* the key mapping failed *)
| ErrNotExist (path : string)
| ErrExist (path : string)
| ErrRead                                     (* the scanner failed to read *)
| ErrSys (c : syscall).                       (* an injected fault *)

(** ** The datastore contract

    [Get], [Put], [Delete] and [Query] of a key-value store.  The stores
    themselves (leveldb, flatfs, the configured datastore of a repo) are
    collaborators outside the engine: a store is its finite map of entries,
    together with the keys on which the environment makes an operation
    fail. *)
Record Datastore := mkDatastore {
  entries : gmap string Value;
  get_faults : gset string;
  put_faults : gset string;
  delete_faults : gset string;
  query_fault : bool
}.

Definition with_entries (d : Datastore) (m : gmap string Value) : Datastore :=
  {| entries := m; get_faults := get_faults d; put_faults := put_faults d;
     delete_faults := delete_faults d; query_fault := query_fault d |}.

(** A store without injected faults. *)
Definition plain_store (m : gmap string Value) : Datastore :=
  {| entries := m; get_faults := ∅; put_faults := ∅; delete_faults := ∅;
     query_fault := false |}.

Definition ds_Get (d : Datastore) (k : Key) : Value + error :=
  if decide (k ∈ get_faults d) then inr (ErrGet k)
  else match entries d !! k with
       | Some v => inl v
       | None => inr (ErrNotFound k)
       end.

(** [Put] overwrites. *)
Definition ds_Put (d : Datastore) (k : Key) (v : Value) : option error * Datastore :=
  if decide (k ∈ put_faults d) then (Some (ErrPut k), d)
  else (None, with_entries d (<[k := v]> (entries d))).

(** [Delete] of an absent key is not an error. *)
Definition ds_Delete (d : Datastore) (k : Key) : option error * Datastore :=
  if decide (k ∈ delete_faults d) then (Some (ErrDelete k), d)
  else (None, with_entries d (delete k (entries d))).

(** The keys of the store, in the order the store lists them. *)
Definition ds_keys (d : Datastore) : list string := (map_to_list (entries d)).*1.

(** [Query{Prefix: p, KeysOnly: true}]: the keys that start with [p].  The
    result is the listing at the time of the query; the loop that consumes
    it does not see its own later writes. *)
Definition ds_Query (d : Datastore) (p : string) : list string + error :=
  if query_fault d then inr ErrQuery
  else inl (List.filter (has_prefix p) (ds_keys d)).

(** ** Worlds and the state monad *)

(** The operations a step performs on its environment, in program order.
    The sequence is kept in the world so that statements about the order of
    operations can be made. *)
Inductive Event :=
| EvLock (acquired : bool)
| EvUnlock
| EvCheckVersion (path expected : string) (ok : bool)
| EvWriteVersion (path v : string) (ok : bool)
| EvOpenStore (ok : bool)
| EvCloseStore
| EvStatBackup (ok : bool)
| EvOpenBackup (ok : bool)
| EvFileWrite (bytes : string)    (* bytes reaching the backup file *)
| EvFlush                         (* buf.Flush() *)
| EvCloseBackup (ok : bool)
| EvRemoveBackup (ok : bool)
| EvSwap (old new : Key)          (* an entry re-keyed from old to new *)
| EvUnswap (old new : Key)        (* an entry re-keyed from new back to old *)
| EvSwapperDone (ok : bool)       (* CidSwapper.Run or Revert returned *)
| EvWritingDone                   (* <-writingDone *)
| EvMkdir (path : string) (ok : bool)
| EvRemove (path : string) (ok : bool)
| EvRemoveAll (path : string) (ok : bool)
| EvRename (oldpath newpath : string) (ok : bool)
| EvTransfer (fpref tpref : string) (ok : bool).

Definition M (W A : Type) : Type := W -> A * W.

#[global] Instance M_ret {W} : MRet (M W) := fun A a w => (a, w).
#[global] Instance M_bind {W} : MBind (M W) :=
  fun A B k c w => let (a, w') := c w in k a w'.

Definition ret {W A} (a : A) : M W A := mret a.

(** [defer cleanup] followed by [body]: the cleanup runs when the body
    returns, whatever it returns. *)
Definition defer {W A} (cleanup : M W unit) (body : M W A) : M W A :=
  r ← body; cleanup;; ret r.

(** [wp c Q w]: running [c] in the world [w] gives a result and a world
    that satisfy [Q]. *)
Definition wp {W A} (c : M W A) (Q : A -> W -> Prop) (w : W) : Prop :=
  let (a, w') := c w in Q a w'.

(** *** The world of the 1-to-2 step

    A file system that maps a path to the repo directory found there.  A
    repo of version 1 keeps its blocks in leveldb under the prefix [/b/];
    a repo of version 2 keeps them in flatfs under [<repo>/blocks]. *)
Record Repo1 := mkRepo1 {
  r_version : string;                (* the version marker *)
  r_ldb : Datastore;                 (* leveldb at <repo>/datastore *)
  r_blocks : option Datastore        (* flatfs at <repo>/blocks, when the directory exists *)
}.

Inductive Node :=
| EmptyDir
| RepoDir (r : Repo1).

Record World1 := mkWorld1 {
  fs : gmap string Node;
  faulty1 : syscall -> bool;
  trace1 : list Event
}.

Definition emit1 (e : Event) : M World1 unit :=
  fun w => (tt, {| fs := fs w; faulty1 := faulty1 w; trace1 := trace1 w ++ [e] |}).

Definition set_fs (m : gmap string Node) : M World1 unit :=
  fun w => (tt, {| fs := m; faulty1 := faulty1 w; trace1 := trace1 w |}).

Definition get_world {W} : M W W := fun w => (w, w).

(** Modelled from the spec: [CheckVersion] of package mfsr, which is not
    among the sources.  It fails when the persisted version differs from
    the expected one, and a directory without a version marker has no
    version. *)
Definition mfsr_CheckVersion1 (path expected : string) : M World1 (option error) :=
  (w ← get_world;
   match fs w !! path with
   | Some (RepoDir r) =>
       if decide (r_version r = expected)
       then emit1 (EvCheckVersion path expected true) ;; ret None
       else emit1 (EvCheckVersion path expected false) ;;
            ret (Some (ErrVersionsDiffer expected (r_version r)))
   | _ => emit1 (EvCheckVersion path expected false) ;;
          ret (Some (ErrNoVersionFile path))
   end).

(** Modelled from the spec: [WriteVersion] of package mfsr overwrites the
    marker, or fails and leaves it as it was. *)
Definition mfsr_WriteVersion1 (path v : string) : M World1 (option error) :=
  (w ← get_world;
   match fs w !! path with
   | Some (RepoDir r) =>
       if faulty1 w SysWriteVersion
       then emit1 (EvWriteVersion path v false) ;; ret (Some (ErrSys SysWriteVersion))
       else set_fs (<[path := RepoDir {| r_version := v; r_ldb := r_ldb r;
                                          r_blocks := r_blocks r |}]> (fs w)) ;;
            emit1 (EvWriteVersion path v true) ;; ret None
   | _ => emit1 (EvWriteVersion path v false) ;; ret (Some (ErrNotExist path))
   end).

(** [os.Mkdir]: fails when the path exists. *)
Definition os_Mkdir (path : string) : M World1 (option error) :=
  (w ← get_world;
   if faulty1 w (SysMkdir path)
   then emit1 (EvMkdir path false) ;; ret (Some (ErrSys (SysMkdir path)))
   else match fs w !! path with
        | Some _ => emit1 (EvMkdir path false) ;; ret (Some (ErrExist path))
        | None => set_fs (<[path := EmptyDir]> (fs w)) ;;
                  emit1 (EvMkdir path true) ;; ret None
        end).

(** [os.Remove] of a directory: it has to exist and to be empty. *)
Definition os_Remove (path : string) : M World1 (option error) :=
  (w ← get_world;
   if faulty1 w (SysRemove path)
   then emit1 (EvRemove path false) ;; ret (Some (ErrSys (SysRemove path)))
   else match fs w !! path with
        | Some EmptyDir => set_fs (delete path (fs w)) ;;
                           emit1 (EvRemove path true) ;; ret None
        | Some (RepoDir _) => emit1 (EvRemove path false) ;; ret (Some (ErrExist path))
        | None => emit1 (EvRemove path false) ;; ret (Some (ErrNotExist path))
        end).

(** [os.Rename] of a directory: the target may be the directory itself or an
    empty directory, which is replaced. *)
Definition os_Rename (oldpath newpath : string) : M World1 (option error) :=
  (w ← get_world;
   if faulty1 w (SysRename oldpath newpath)
   then emit1 (EvRename oldpath newpath false) ;;
        ret (Some (ErrSys (SysRename oldpath newpath)))
   else match fs w !! oldpath with
        | None => emit1 (EvRename oldpath newpath false) ;;
                  ret (Some (ErrNotExist oldpath))
        | Some n =>
            if decide (oldpath = newpath)
            then emit1 (EvRename oldpath newpath true) ;; ret None
            else match fs w !! newpath with
                 | Some (RepoDir _) => emit1 (EvRename oldpath newpath false) ;;
                                       ret (Some (ErrExist newpath))
                 | _ => set_fs (<[newpath := n]> (delete oldpath (fs w))) ;;
                        emit1 (EvRename oldpath newpath true) ;; ret None
                 end
        end).

(** *** The world of the 8-to-9 step

    The repo at [opts.Path]: its lock, its version marker, its datastore
    and the backup file [8-to-9-cids.txt], together with the buffer of the
    [bufio.Writer] that [Apply] puts in front of the backup file.

    [Apply] and [Revert] reach the datastore only through
    [namespace.Wrap(dstore, ds.NewKey("/blocks"))]; [blocks] is the store as
    that wrapper shows it, which is the store the swapper works on. *)
Inductive lock_state :=
| Unlocked
| LockedByOther          (* another process holds the lock *)
| LockedByStep.          (* the running step holds the lock *)

Inductive LogArg :=
| AStr (s : string)
| ANum (n : Z)
| AErr (e : error).

(** A line of output of package stump: [log.Log], [log.VLog] or
    [log.Error] with its format string and arguments. *)
Inductive LogLine :=
| Log (fmt : string) (args : list LogArg)
| VLog (fmt : string) (args : list LogArg)
| Error (fmt : string) (args : list LogArg).

Record World8 := mkWorld8 {
  lock : lock_state;
  version : string;               (* the version marker *)
  blocks : Datastore;             (* the /blocks namespace of the datastore *)
  backup : option string;         (* the backup file, when it exists *)
  wbuf : string;                  (* bytes held by the bufio.Writer *)
  faulty : syscall -> bool;       (* the faults the environment injects *)
  scan_error_at : option nat;     (* the scanner fails after that many lines *)
  trace : list Event;
  output : list LogLine
}.

Definition set_lock (l : lock_state) : M World8 unit := fun w =>
  (tt, {| lock := l; version := version w; blocks := blocks w; backup := backup w;
          wbuf := wbuf w; faulty := faulty w; scan_error_at := scan_error_at w;
          trace := trace w; output := output w |}).

Definition set_version (v : string) : M World8 unit := fun w =>
  (tt, {| lock := lock w; version := v; blocks := blocks w; backup := backup w;
          wbuf := wbuf w; faulty := faulty w; scan_error_at := scan_error_at w;
          trace := trace w; output := output w |}).

Definition set_blocks (d : Datastore) : M World8 unit := fun w =>
  (tt, {| lock := lock w; version := version w; blocks := d; backup := backup w;
          wbuf := wbuf w; faulty := faulty w; scan_error_at := scan_error_at w;
          trace := trace w; output := output w |}).

Definition set_backup (b : option string) : M World8 unit := fun w =>
  (tt, {| lock := lock w; version := version w; blocks := blocks w; backup := b;
          wbuf := wbuf w; faulty := faulty w; scan_error_at := scan_error_at w;
          trace := trace w; output := output w |}).

Definition set_wbuf (b : string) : M World8 unit := fun w =>
  (tt, {| lock := lock w; version := version w; blocks := blocks w; backup := backup w;
          wbuf := b; faulty := faulty w; scan_error_at := scan_error_at w;
          trace := trace w; output := output w |}).

Definition emit (e : Event) : M World8 unit := fun w =>
  (tt, {| lock := lock w; version := version w; blocks := blocks w; backup := backup w;
          wbuf := wbuf w; faulty := faulty w; scan_error_at := scan_error_at w;
          trace := trace w ++ [e]; output := output w |}).

Definition emits (es : list Event) : M World8 unit := fun w =>
  (tt, {| lock := lock w; version := version w; blocks := blocks w; backup := backup w;
          wbuf := wbuf w; faulty := faulty w; scan_error_at := scan_error_at w;
          trace := trace w ++ es; output := output w |}).

Definition print (l : LogLine) : M World8 unit := fun w =>
  (tt, {| lock := lock w; version := version w; blocks := blocks w; backup := backup w;
          wbuf := wbuf w; faulty := faulty w; scan_error_at := scan_error_at w;
          trace := trace w; output := output w ++ [l] |}).

(** Package stump: [VLog] prints in verbose mode only. *)
Definition log_Log (fmt : string) (args : list LogArg) : M World8 unit :=
  print (Log fmt args).
Definition log_Error (fmt : string) (args : list LogArg) : M World8 unit :=
  print (Error fmt args).
Definition log_VLog (opts : Options) (fmt : string) (args : list LogArg) : M World8 unit :=
  if Verbose opts then print (VLog fmt args) else ret tt.

(** Modelled from the spec: [Lock2] of package repolock, which is not among
    the sources.  It takes the exclusive lock of the repo, or fails when the
    lock is held. *)
Definition lock_Lock2 (path : string) : M World8 (unit + error) :=
  w ← get_world;
  if faulty w SysLock then emit (EvLock false);; ret (inr (ErrSys SysLock))
  else match lock w with
       | Unlocked => set_lock LockedByStep;; emit (EvLock true);; ret (inl tt)
       | _ => emit (EvLock false);; ret (inr ErrLocked)
       end.

(** [lk.Close()] releases the lock. *)
Definition lk_Close : M World8 unit :=
  set_lock Unlocked;; emit EvUnlock.

(** Modelled from the spec: [CheckVersion] of package mfsr fails when the
    persisted version differs from the expected one. *)
Definition mfsr_CheckVersion (path expected : string) : M World8 (option error) :=
  w ← get_world;
  if decide (version w = expected)
  then emit (EvCheckVersion path expected true);; ret None
  else emit (EvCheckVersion path expected false);;
       ret (Some (ErrVersionsDiffer expected (version w))).

(** Modelled from the spec: [WriteVersion] of package mfsr overwrites the
    marker, or fails and leaves it as it was. *)
Definition mfsr_WriteVersion (path v : string) : M World8 (option error) :=
  w ← get_world;
  if faulty w SysWriteVersion
  then emit (EvWriteVersion path v false);; ret (Some (ErrSys SysWriteVersion))
  else set_version v;; emit (EvWriteVersion path v true);; ret None.

(** [filepath.Join] of a directory and a file name. *)
Definition filepath_Join (dir name : string) : string := dir +:+ "/" +:+ name.

Definition IsNotExist (e : error) : bool :=
  match e with
  | ErrNotExist _ => true
  | _ => false
  end.

(** [os.Stat] of the backup file. *)
Definition os_Stat (backupPath : string) : M World8 (option error) :=
  w ← get_world;
  if faulty w SysStatBackup
  then emit (EvStatBackup false);; ret (Some (ErrSys SysStatBackup))
  else match backup w with
       | None => emit (EvStatBackup false);; ret (Some (ErrNotExist backupPath))
       | Some _ => emit (EvStatBackup true);; ret None
       end.

(** [os.OpenFile(backupPath, os.O_WRONLY|os.O_APPEND|os.O_CREATE, 0644)]. *)
Definition os_OpenFile (backupPath : string) : M World8 (unit + error) :=
  w ← get_world;
  if faulty w SysOpenBackup
  then emit (EvOpenBackup false);; ret (inr (ErrSys SysOpenBackup))
  else match backup w with
       | None => set_backup (Some EmptyString)
       | Some _ => ret tt
       end;; emit (EvOpenBackup true);; ret (inl tt).

(** [os.Open(backupPath)]: the handle is the content of the file. *)
Definition os_Open (backupPath : string) : M World8 (string + error) :=
  w ← get_world;
  if faulty w SysOpenBackup
  then emit (EvOpenBackup false);; ret (inr (ErrSys SysOpenBackup))
  else match backup w with
       | None => emit (EvOpenBackup false);; ret (inr (ErrNotExist backupPath))
       | Some content => emit (EvOpenBackup true);; ret (inl content)
       end.

(** [f.Close()]. *)
Definition f_Close : M World8 (option error) :=
  w ← get_world;
  if faulty w SysCloseBackup
  then emit (EvCloseBackup false);; ret (Some (ErrSys SysCloseBackup))
  else emit (EvCloseBackup true);; ret None.

(** [os.Remove(backupPath)]. *)
Definition os_Remove_backup (backupPath : string) : M World8 (option error) :=
  w ← get_world;
  if faulty w SysRemoveBackup
  then emit (EvRemoveBackup false);; ret (Some (ErrSys SysRemoveBackup))
  else match backup w with
       | None => emit (EvRemoveBackup false);; ret (Some (ErrNotExist backupPath))
       | Some _ => set_backup None;; emit (EvRemoveBackup true);; ret None
       end.

(** A write of [p] to the file opened for appending. *)
Definition file_Write (p : string) : M World8 unit :=
  w ← get_world;
  set_backup (Some (default EmptyString (backup w) +:+ p));;
  emit (EvFileWrite p).

(** The size of the buffer of [bufio.NewWriter]. *)
Definition defaultBufSize : nat := 4096.
#[global] Opaque defaultBufSize.

(** [Flush] of [bufio.Writer]: the buffered bytes go to the file. *)
Definition bufio_flush : M World8 unit :=
  w ← get_world;
  if decide (wbuf w = EmptyString) then ret tt
  else file_Write (wbuf w);; set_wbuf EmptyString.

Definition bufio_Flush : M World8 unit :=
  emit EvFlush;; bufio_flush.

(** [Write] of [bufio.Writer]: bytes are copied into the buffer while they
    fit; a full buffer is flushed, and a write larger than the empty buffer
    goes to the file directly.  The loop of the original runs at most twice,
    since the buffer is empty after its first round. *)
Definition bufio_Write (p : string) : M World8 unit :=
  w ← get_world;
  let avail := defaultBufSize - String.length (wbuf w) in
  if decide (String.length p <= avail)%nat then set_wbuf (wbuf w +:+ p)
  else if decide (wbuf w = EmptyString) then file_Write p
  else
    set_wbuf (wbuf w +:+ str_take avail p);; bufio_flush;;
    let p' := str_drop avail p in
    if decide (String.length p' <= defaultBufSize)%nat then set_wbuf p'
    else file_Write p'.

(** [Swap] holds the datastore keys of an entry before and after the
    migration. *)
Record Swap := mkSwap { Old : Key; New : Key }.

(** The events of a swap and of its inverse. *)
Definition swap_event (sw : Swap) : Event := EvSwap (Old sw) (New sw).
Definition unswap_event (sw : Swap) : Event := EvUnswap (Old sw) (New sw).

Section Migrations.

(** [NewKey] of go-datastore builds a key from a string, normalising it.
    The datastore package is not part of the sources at hand, so the
    normalisation is a parameter of the development. *)
Variable NewKey : string -> Key.

(** ** Package mg1: ipfs-1-to-2/migration/migration.go *)

Definition peerKeyName : string := "peer.key".

(** The body of the [for result := range res.Next()] loop of
    [transferBlocks], over the keys the query lists.  [result.Key[len(fpref):]]
    is in range because every listed key starts with [fpref]. *)
Fixpoint transferBlocks_loop (results : list string) (from to : Datastore)
    (fpref tpref : string) : option error * Datastore * Datastore :=
  match results with
  | [] => (None, from, to)
  | result_Key :: rest =>
      let nkey := tpref +:+ str_drop (String.length fpref) result_Key in
      let fkey := NewKey result_Key in
      match ds_Get from fkey with
      | inr err => (Some err, from, to)
      | inl val =>
          match ds_Put to (NewKey nkey) val with
          | (Some err, to') => (Some err, from, to')
          | (None, to') =>
              match ds_Delete from fkey with
              | (Some err, from') => (Some err, from', to')
              | (None, from') => transferBlocks_loop rest from' to' fpref tpref
              end
          end
      end
  end.

(** The key under which [transferBlocks] stores the entry listed as [K]. *)
Definition target_key (fpref tpref : string) (K : string) : Key :=
  NewKey (tpref +:+ str_drop (String.length fpref) K).

Definition transferBlocks (from to : Datastore) (fpref tpref : string)
    : option error * Datastore * Datastore :=
  match ds_Query from fpref with
  | inr err => (Some err, from, to)
  | inl res => transferBlocks_loop res from to fpref tpref
  end.

(** The two stores of the repo at [repopath] after a transfer left them as
    [ldb] and [fds]. *)
Definition store_back (repopath : string) (r : Repo1) (ldb fds : Datastore)
    : M World1 unit :=
  (w ← get_world;
   set_fs (<[repopath := RepoDir {| r_version := r_version r; r_ldb := ldb;
                                     r_blocks := Some fds |}]> (fs w))).

Definition transferBlocksToFlatDB (repopath : string) : M World1 (option error) :=
  (w ← get_world;
   match fs w !! repopath with
   | Some (RepoDir r) =>
       (* ldb, err := leveldb.NewDatastore(ldbpath, nil) *)
       if faulty1 w SysLeveldb then ret (Some (ErrSys SysLeveldb))
       else
         (* err = os.Mkdir(blockspath, 0777); an existing directory is fine *)
         let blockspath := repopath +:+ "/blocks" in
         if faulty1 w (SysMkdir blockspath)
         then emit1 (EvMkdir blockspath false) ;; ret (Some (ErrSys (SysMkdir blockspath)))
         else
           let fds0 := match r_blocks r with
                       | Some d => d
                       | None => plain_store ∅
                       end in
           emit1 (EvMkdir blockspath (bool_decide (r_blocks r = None))) ;;
           store_back repopath r (r_ldb r) fds0 ;;
           (* fds, err := flatfs.New(blockspath, 4) *)
           if faulty1 w SysFlatfs then ret (Some (ErrSys SysFlatfs))
           else
             let '(err, ldb', fds') := transferBlocks (r_ldb r) fds0 "/b/" "" in
             store_back repopath r ldb' fds' ;;
             emit1 (EvTransfer "/b/" "" (bool_decide (err = None))) ;;
             ret err
   | _ => ret (Some (ErrNotExist repopath))
   end).

Definition transferBlocksFromFlatDB (repopath : string) : M World1 (option error) :=
  (w ← get_world;
   match fs w !! repopath with
   | Some (RepoDir r) =>
       let blockspath := repopath +:+ "/blocks" in
       (* fds, err := flatfs.New(blockspath, 4) *)
       if faulty1 w SysFlatfs then ret (Some (ErrSys SysFlatfs))
       else
         (* ldb, err := leveldb.NewDatastore(ldbpath, nil) *)
         if faulty1 w SysLeveldb then ret (Some (ErrSys SysLeveldb))
         else
           match r_blocks r with
           | None =>
               (* listing a blocks directory that does not exist fails *)
               emit1 (EvTransfer "" "/b/" false) ;; ret (Some (ErrNotExist blockspath))
           | Some fds =>
               let '(err, fds', ldb') := transferBlocks fds (r_ldb r) "" "/b/" in
               store_back repopath r ldb' fds' ;;
               emit1 (EvTransfer "" "/b/" (bool_decide (err = None))) ;;
               match err with
               | Some e => ret (Some e)
               | None =>
                   (* Now remove the blocks directory *)
                   if faulty1 w (SysRemoveAll blockspath)
                   then emit1 (EvRemoveAll blockspath false) ;;
                        ret (Some (ErrSys (SysRemoveAll blockspath)))
                   else
                     w' ← get_world;
                     set_fs (<[repopath := RepoDir {| r_version := r_version r;
                                                       r_ldb := ldb';
                                                       r_blocks := None |}]> (fs w')) ;;
                     emit1 (EvRemoveAll blockspath true) ;;
                     ret None
               end
           end
   | _ => ret (Some (ErrNotExist repopath))
   end).

(** [sanityChecks] performs a set of tests to make sure the migration will
    go smoothly. *)
Definition sanityChecks (opts : Options) : M World1 (option error) :=
  (let npath := replace_first ".go-ipfs" ".ipfs" (Path opts) in
   (* make sure we can move the repo from .go-ipfs to .ipfs *)
   err ← os_Mkdir npath;
   match err with
   | Some e => ret (Some e)
   | None =>
       (* we can? good, remove it now *)
       os_Remove npath
   end).

Definition moveIpfsDir (curpath : string) : M World1 (string * option error) :=
  (let newpath := replace_first ".go-ipfs" ".ipfs" curpath in
   err ← os_Rename curpath newpath;
   ret (newpath, err)).

Definition reverseIpfsDir (curpath : string) : M World1 (string * option error) :=
  (let newpath := replace_first ".ipfs" ".go-ipfs" curpath in
   err ← os_Rename curpath newpath;
   ret (newpath, err)).

Definition mg1_Versions : string := "1-to-2".
Definition mg1_Reversible : bool := true.

Definition mg1_Apply (opts : Options) : M World1 (option error) :=
  (err ← mfsr_CheckVersion1 (Path opts) "1";
   match err with
   | Some e => ret (Some e)
   | None =>
       (* 1) run some sanity checks to make sure we should even bother *)
       err ← sanityChecks opts;
       match err with
       | Some e => ret (Some e)
       | None =>
           (* 2) Transfer blocks out of leveldb into flatDB *)
           err ← transferBlocksToFlatDB (Path opts);
           match err with
           | Some e => ret (Some e)
           | None =>
               (* 3) move ipfs path from .go-ipfs to .ipfs *)
               '(newpath, err) ← moveIpfsDir (Path opts);
               match err with
               | Some e => ret (Some e)
               | None =>
                   (* 4) Update version number *)
                   mfsr_WriteVersion1 newpath "2"
               end
           end
       end
   end).

Definition mg1_Revert (opts : Options) : M World1 (option error) :=
  (err ← mfsr_CheckVersion1 (Path opts) "2";
   match err with
   | Some e => ret (Some e)
   | None =>
       (* 1) Move directory back to .go-ipfs *)
       '(npath, err) ← reverseIpfsDir (Path opts);
       match err with
       | Some e => ret (Some e)
       | None =>
           (* 2) move blocks back from flatfs to leveldb *)
           err ← transferBlocksFromFlatDB npath;
           match err with
           | Some e => ret (Some e)
           | None =>
               (* 3) change version number back down *)
               mfsr_WriteVersion1 npath "1"
           end
       end
   end).

(** ** Package mg8: ipfs-8-to-9/migration/migration.go *)

(** The mapping from a key to its key after the migration (a CIDv1 key to
    the key of its raw multihash).  It belongs to the swapper, whose file is
    not among the sources; it may leave a key as it is, and it may fail. *)
Variable newKeyOf : Key -> Key + error.

Definition backupFile : string := "8-to-9-cids.txt".

(** [Versions] returns the current version string for this migration. *)
Definition mg8_Versions : string := "8-to-9".

(** [Reversible] returns true. *)
Definition mg8_Reversible : bool := true.

(** The count of swapped keys is a [uint64]. *)
Definition uint64_of_nat (n : nat) : Z := (Z.of_nat n mod 2 ^ 64)%Z.
#[global] Arguments uint64_of_nat : simpl never.

(** Modelled from the spec: the per-key work of [CidSwapper.Run], which is
    not among the sources.  For each key found by the enumeration the new
    key is computed; a key that maps to itself is left alone; otherwise the
    value is read, written under the new key, the old key is deleted, and
    the pair is sent to the backup sink.  An error aborts the run.  The
    result lists the pairs sent, in the order they were sent. *)
Fixpoint swap_loop (keys : list Key) (st : Datastore)
    : option error * Datastore * list Swap :=
  match keys with
  | [] => (None, st, [])
  | k :: rest =>
      match newKeyOf k with
      | inr err => (Some err, st, [])
      | inl nk =>
          if decide (nk = k) then swap_loop rest st
          else
            match ds_Get st k with
            | inr err => (Some err, st, [])
            | inl v =>
                match ds_Put st nk v with
                | (Some err, st1) => (Some err, st1, [])
                | (None, st1) =>
                    match ds_Delete st1 k with
                    | (Some err, st2) => (Some err, st2, [])
                    | (None, st2) =>
                        let '(err, st3, sent) := swap_loop rest st2 in
                        (err, st3, {| Old := k; New := nk |} :: sent)
                    end
                end
            end
      end
  end.


(** Modelled from the spec: [CidSwapper.Run] enumerates the keys of the
    store, swaps them, and returns the number of keys swapped.  The records
    it sends on [SwapCh] are the list it returns here; the channel is closed
    when it returns. *)
Definition CidSwapper_Run : M World8 (Z * option error * list Swap) :=
  w ← get_world;
  match ds_Query (blocks w) EmptyString with
  | inr err => emit (EvSwapperDone false);; ret (0%Z, Some err, [])
  | inl keys =>
      let '(err, st, sent) := swap_loop keys (blocks w) in
      set_blocks st;;
      emits (map swap_event sent);;
      emit (EvSwapperDone (bool_decide (err = None)));;
      ret (uint64_of_nat (List.length sent), err, sent)
  end.

(** Modelled from the spec: the per-record work of [CidSwapper.Revert]:
    [Get] at the new key, [Put] at the old key, [Delete] at the new key.  An
    error aborts the run.  The result lists the records reverted. *)
Fixpoint unswap_loop (unswapCh : list Swap) (st : Datastore)
    : option error * Datastore * list Swap :=
  match unswapCh with
  | [] => (None, st, [])
  | sw :: rest =>
      match ds_Get st (New sw) with
      | inr err => (Some err, st, [])
      | inl v =>
          match ds_Put st (Old sw) v with
          | (Some err, st1) => (Some err, st1, [])
          | (None, st1) =>
              match ds_Delete st1 (New sw) with
              | (Some err, st2) => (Some err, st2, [])
              | (None, st2) =>
                  let '(err, st3, reverted) := unswap_loop rest st2 in
                  (err, st3, sw :: reverted)
              end
          end
      end
  end.

(** Modelled from the spec: [CidSwapper.Revert] consumes the records of the
    channel until it is closed and returns the number of records reverted. *)
Definition CidSwapper_Revert (unswapCh : list Swap) : M World8 (Z * option error) :=
  w ← get_world;
  let '(err, st, reverted) := unswap_loop unswapCh (blocks w) in
  set_blocks st;;
  emits (map unswap_event reverted);;
  emit (EvSwapperDone (bool_decide (err = None)));;
  ret (uint64_of_nat (List.length reverted), err).

(** lock the repo *)
Definition mg8_lock (opts : Options) : M World8 (unit + error) :=
  log_VLog opts "locking repo at %q" [AStr (Path opts)];;
  lock_Lock2 (Path opts).

(** open the repo: plugins, configuration and datastore construction are
    collaborators outside the engine, and opening either works or fails. *)
Definition mg8_open (opts : Options) : M World8 (unit + error) :=
  log_VLog opts "  - loading repo configurations" [];;
  w ← get_world;
  if faulty w SysOpenStore
  then emit (EvOpenStore false);; ret (inr (ErrSys SysOpenStore))
  else emit (EvOpenStore true);; ret (inl tt).

(** [dstore.Close()]. *)
Definition dstore_Close : M World8 unit := emit EvCloseStore.

(** The line of the backup file for a swap. *)
Definition backup_line (sw : Swap) : string :=
  Old sw +:+ "," +:+ New sw +:+ String LF EmptyString.

(** The goroutine of [Apply] that writes the backup file:
    [for sw := range swapCh { fmt.Fprint(buf, ...) }].  It receives the
    records in the order they were sent. *)
Fixpoint writer_goroutine (swapCh : list Swap) : M World8 unit :=
  match swapCh with
  | [] => ret tt
  | sw :: rest => bufio_Write (backup_line sw);; writer_goroutine rest
  end.

(** The part of [Apply] from the opening of the backup file on: the file is
    opened for appending, the swapper runs while the writer goroutine logs
    its records, and the version file is written.

    The writer goroutine runs next to [cidSwapper.Run()]; here it has
    written every record that was sent by the time [Run] returns, which is
    what [<-writingDone] waits for on the path that goes on to the version
    file. *)
Definition mg8_Apply_append (opts : Options) (backupPath : string)
    : M World8 (option error) :=
  (* If it exists, append to it. *)
  f ← os_OpenFile backupPath;
  match f with
  | inr err => log_Error "%s" [AErr err];; ret (Some err)
  | inl _ =>
    defer (f_Close;; ret tt) (
      set_wbuf EmptyString;;     (* buf := bufio.NewWriter(f) *)
      defer bufio_Flush (
        '(total, err, swapCh) ← CidSwapper_Run;
        writer_goroutine swapCh;;
        match err with
        | Some e => log_Error "%s" [AErr e];; ret (Some e)
        | None =>
          (* Wait for our writing to finish before doing the
             final flush (deferred). *)
          emit EvWritingDone;;
          log_Log "%d CIDv1 keys swapped to raw multihashes" [ANum total];;
          err ← mfsr_WriteVersion (Path opts) "9";
          match err with
          | Some e => log_Error "failed to write version file" [];; ret (Some e)
          | None => log_Log "updated version file" [];; ret None
          end
        end))
  end.

(** [Apply] runs the migration and writes a log file that can be used by
    [Revert]. *)
Definition mg8_Apply (opts : Options) : M World8 (option error) :=
  log_Log "applying %s repo migration" [AStr mg8_Versions];;
  lk ← mg8_lock opts;
  match lk with
  | inr err => ret (Some err)
  | inl _ =>
    defer lk_Close (
      log_VLog opts "  - verifying version is '8'" [];;
      err ← mfsr_CheckVersion (Path opts) "8";
      match err with
      | Some e => ret (Some e)
      | None =>
        dstore ← mg8_open opts;
        match dstore with
        | inr err => ret (Some err)
        | inl _ =>
          defer dstore_Close (
            log_VLog opts "  - starting CIDv1 to raw multihash block migration" [];;
            (* Prepare backing up of CIDs *)
            let backupPath := filepath_Join (Path opts) backupFile in
            log_VLog opts "  - backup file will be written to %s" [AStr backupPath];;
            err ← os_Stat backupPath;
            match err with
            | Some e =>
                if negb (IsNotExist e) then log_Error "%s" [AErr e];; ret (Some e)
                else mg8_Apply_append opts backupPath
            | None => (* backup file exists *)
                log_Log "WARN: backup file %s already exists. CIDs-Multihash pairs will be appended"
                  [AStr backupPath];;
                mg8_Apply_append opts backupPath
            end)
        end
      end)
  end.

(** The swap record of a well-formed line. *)
Definition record_of (line : string) : Swap :=
  match strings_Split comma line with
  | [old; new] => {| Old := NewKey old; New := NewKey new |}
  | _ => {| Old := NewKey EmptyString; New := NewKey EmptyString |}
  end.

(** The goroutine of [Revert] that reads the backup file: every line that
    splits on the comma into two fields becomes a swap record on
    [unswapCh]; any other line is reported and skipped.  The result lists
    the records sent before the channel is closed. *)
Fixpoint scan_records (lines : list string) : M World8 (list Swap) :=
  match lines with
  | [] => ret []
  | line :: rest =>
      let oldAndNew := strings_Split comma line in
      match oldAndNew with
      | [old; new] =>
          let sw := {| Old := NewKey old; New := NewKey new |} in
          sent ← scan_records rest;
          ret (sw :: sent)
      | _ =>
          log_Error "bad line in backup file: %s" [AStr line];;
          scan_records rest
      end
  end.

Definition scanner_goroutine (content : string) : M World8 (list Swap) :=
  w ← get_world;
  match scan_error_at w with
  | None => scan_records (ScanLines content)
  | Some n =>
      sent ← scan_records (take n (ScanLines content));
      (* if err := scanner.Err(); err != nil *)
      log_Error "%s" [AErr ErrRead];;
      ret sent
  end.

(** [Revert] attempts to undo the migration using the log file written by
    [Apply]. *)
Definition mg8_Revert (opts : Options) : M World8 (option error) :=
  log_Log "reverting %s repo migration" [AStr mg8_Versions];;
  lk ← mg8_lock opts;
  match lk with
  | inr err => ret (Some err)
  | inl _ =>
    defer lk_Close (
      log_VLog opts "  - verifying version is '9'" [];;
      err ← mfsr_CheckVersion (Path opts) "9";
      match err with
      | Some e => ret (Some e)
      | None =>
        log_VLog opts "  - starting raw multihash to CIDv1 block migration" [];;
        dstore ← mg8_open opts;
        match dstore with
        | inr err => ret (Some err)
        | inl _ =>
          defer dstore_Close (
            (* Open revert path for reading *)
            let backupPath := filepath_Join (Path opts) backupFile in
            log_VLog opts "  - backup file will be read from %s" [AStr backupPath];;
            f ← os_Open backupPath;
            match f with
            | inr err => log_Error "%s" [AErr err];; ret (Some err)
            | inl content =>
              unswapCh ← scanner_goroutine content;
              '(total, err) ← CidSwapper_Revert unswapCh;
              match err with
              | Some e => log_Error "%s" [AErr e];; ret (Some e)
              | None =>
                log_Log "%d multihashes reverted to CidV1s" [ANum total];;
                err ← mfsr_WriteVersion (Path opts) "8";
                match err with
                | Some e => log_Error "failed to write version file" [];; ret (Some e)
                | None =>
                  log_Log "reverted version file to version 8" [];;
                  err ← f_Close;
                  match err with
                  | Some e => log_Error "could not close backup file" [];; ret (Some e)
                  | None =>
                    err ← os_Remove_backup backupPath;
                    match err with
                    | Some e =>
                        log_Error "could not remove the backup file, but migration worked: %s"
                          [AErr e]
                    | None => ret tt
                    end;;
                    ret None
                  end
                end
              end
            end)
        end
      end)
  end.

End Migrations.

(** ** Kinds of events and lines, for the statements below *)

(** The events of a step that took the world [w] to [w']. *)
Definition step_events (w w' : World8) : list Event :=
  drop (List.length (trace w)) (trace w').

Definition step_events1 (w w' : World1) : list Event :=
  drop (List.length (trace1 w)) (trace1 w').

(** The lines a step printed. *)
Definition step_output (w w' : World8) : list LogLine :=
  drop (List.length (output w)) (output w').

(** What [log.VLog] prints. *)
Definition vlog_lines (opts : Options) (fmt : string) (args : list LogArg) : list LogLine :=
  if Verbose opts then [VLog fmt args] else [].

(** The write a [Flush] of a buffer holding [buf] causes. *)
Definition flush_events (buf : string) : list Event :=
  if decide (buf = EmptyString) then [] else [EvFileWrite buf].

Definition is_lock_event (e : Event) : bool :=
  match e with
  | EvLock _ | EvUnlock => true
  | _ => false
  end.

Definition is_file_write (e : Event) : bool :=
  match e with
  | EvFileWrite _ => true
  | _ => false
  end.


Definition is_write_version (e : Event) : bool :=
  match e with
  | EvWriteVersion _ _ _ => true
  | _ => false
  end.

Definition is_open_store (e : Event) : bool :=
  match e with
  | EvOpenStore _ => true
  | _ => false
  end.

Definition is_swap (e : Event) : bool :=
  match e with
  | EvSwap _ _ | EvUnswap _ _ => true
  | _ => false
  end.

Definition is_remove_backup (e : Event) : bool :=
  match e with
  | EvRemoveBackup _ => true
  | _ => false
  end.

(** A line of the backup file is well formed when it splits on the comma
    into exactly two fields. *)
Definition well_formed (line : string) : bool :=
  bool_decide (List.length (strings_Split comma line) = 2).

(** The report of [Revert] for a line that is not. *)
Definition bad_line_report (line : string) : LogLine :=
  Error "bad line in backup file: %s" [AStr line].

(** The lock is taken first and released last, with no other lock operation
    in between; or the lock is refused and nothing else happens. *)
Definition locked_throughout (w : World8) (r : option error) (w' : World8) : Prop :=
  (step_events w w' = [EvLock false] /\ is_Some r /\ lock w' = lock w) \/
  (exists mid, step_events w w' = EvLock true :: (mid ++ [EvUnlock])%list /\
               Forall (fun e => is_lock_event e = false) mid /\
               lock w = Unlocked /\ lock w' = Unlocked).


(** A store on which no operation fails for a reason of the environment. *)
Definition fault_free (d : Datastore) : Prop :=
  get_faults d = ∅ /\ put_faults d = ∅ /\ delete_faults d = ∅ /\ query_fault d = false.

(** A repo whose lock is free and whose environment injects no fault. *)
Definition healthy (w : World8) : Prop :=
  lock w = Unlocked /\ (forall c, faulty w c = false).

(** The version marker of the repo directory at [path], when there is one. *)
Definition version_at (w : World1) (path : string) : option string :=
  match fs w !! path with
  | Some (RepoDir r) => Some (r_version r)
  | _ => None
  end.

(** The lines the scanner goroutine delivers before it closes the channel:
    all of them, or those before the read error. *)
Definition scanned (w : World8) (content : string) : list string :=
  match scan_error_at w with
  | None => ScanLines content
  | Some n => take n (ScanLines content)
  end.

(** A repo on which [Revert] gets through to its end when the swapper
    succeeds: the lock is free, and locking, opening the store, opening and
    closing the backup file and writing the version file do not fail. *)
Definition revert_ready (w : World8) : Prop :=
  lock w = Unlocked /\ faulty w SysLock = false /\ faulty w SysOpenStore = false /\
  faulty w SysOpenBackup = false /\ faulty w SysWriteVersion = false /\
  faulty w SysCloseBackup = false.

(** The report of [Revert] when the backup file could not be removed. *)
Definition remove_failed_report (e : error) : LogLine :=
  Error "could not remove the backup file, but migration worked: %s" [AErr e].

(** The text of a record of the backup file, without its line feed. *)
Definition record_text (sw : Swap) : string := Old sw +:+ String comma (New sw).

(** The step was refused at the version check: it returns an error, which is
    the version mismatch when the lock could be taken; the store was not
    opened, no key was swapped, nothing was written, and the repo is as it
    was. *)
Definition refused_at_version_check (expected : string) (w : World8)
    (r : option error) (w' : World8) : Prop :=
  (exists e, r = Some e /\
     (lock w = Unlocked -> faulty w SysLock = false ->
      e = ErrVersionsDiffer expected (version w))) /\
  Forall (fun ev => is_open_store ev = false /\ is_swap ev = false /\
                    is_write_version ev = false /\ is_file_write ev = false)
    (step_events w w') /\
  blocks w' = blocks w /\ version w' = version w /\ backup w' = backup w.

(** Every write of the version file in [evs] writes [to_version], is the
    first such write, comes after the successful return of the swapper, and
    is followed by no swap. *)
Definition commit_after_transform (to_version : string) (evs : list Event) : Prop :=
  forall p v ok, EvWriteVersion p v ok ∈ evs ->
    v = to_version /\
    exists pre post, evs = (pre ++ EvWriteVersion p v ok :: post)%list /\
      Forall (fun e => is_write_version e = false) pre /\
      Forall (fun e => is_swap e = false) post /\
      EvSwapperDone true ∈ pre.

(** ** Instances and sample worlds *)

(** The normalisation of go-datastore ([path.Clean] of the string behind a
    slash) on strings without dot components: empty components are dropped
    and every component is preceded by one slash. *)
Definition clean_key (s : string) : Key :=
  match List.filter (fun c => negb (String.eqb c EmptyString)) (strings_Split "/"%char s) with
  | [] => "/"
  | comps => str_concat (map (fun c => "/" +:+ c) comps)
  end.

(** A key mapping in the manner of the 8-to-9 step: keys that name a CIDv1
    map to the key of the multihash, every other key is left alone. *)
Definition sample_newKeyOf (k : Key) : Key + error :=
  if String.eqb k "/CIDv1-abc" then inl "/mh-abc"
  else if String.eqb k "/CIDv1-raw-abc" then inl "/mh-abc"
  else if String.eqb k "/CIDv1-xyz" then inl "/mh-xyz"
  else inl k.

Definition no_faults : syscall -> bool := fun _ => false.

Definition sample_opts : Options := {| Path := "/home/u/.ipfs"; Verbose := false |}.

Definition bytes123 : Value := [Byte.x01; Byte.x02; Byte.x03].
Definition bytes45 : Value := [Byte.x04; Byte.x05].

(** A version-8 repo with the given blocks and no backup file. *)
Definition repo8 (m : gmap string Value) : World8 :=
  {| lock := Unlocked; version := "8"; blocks := plain_store m; backup := None;
     wbuf := EmptyString; faulty := no_faults; scan_error_at := None;
     trace := []; output := [] |}.

(** A version-9 repo with the given blocks and backup file. *)
Definition repo9 (m : gmap string Value) (log : string) : World8 :=
  {| lock := Unlocked; version := "9"; blocks := plain_store m; backup := Some log;
     wbuf := EmptyString; faulty := no_faults; scan_error_at := None;
     trace := []; output := [] |}.

Definition with_faults (w : World8) (f : syscall -> bool) : World8 :=
  {| lock := lock w; version := version w; blocks := blocks w; backup := backup w;
     wbuf := wbuf w; faulty := f; scan_error_at := scan_error_at w;
     trace := trace w; output := output w |}.


Definition with_lock (w : World8) (l : lock_state) : World8 :=
  {| lock := l; version := version w; blocks := blocks w; backup := backup w;
     wbuf := wbuf w; faulty := faulty w; scan_error_at := scan_error_at w;
     trace := trace w; output := output w |}.

(** One CIDv1 block. *)
Definition one_block : gmap string Value := {[ "/CIDv1-abc" := bytes123 ]}.


(** Five blocks in leveldb under the prefix of version 1. *)
Definition five_blocks : gmap string Value :=
  <[ "/b/k1" := [Byte.x01] ]> (<[ "/b/k2" := [Byte.x02] ]> (<[ "/b/k3" := [Byte.x03] ]>
  (<[ "/b/k4" := [Byte.x04] ]> {[ "/b/k5" := [Byte.x05] ]}))).

(** A version-1 repo at [/home/u/.go-ipfs]. *)
Definition world1 (m : gmap string Value) : World1 :=
  {| fs := {[ "/home/u/.go-ipfs" :=
                RepoDir {| r_version := "1"; r_ldb := plain_store m; r_blocks := None |} ]};
     faulty1 := no_faults; trace1 := [] |}.

Definition sample_opts1 : Options := {| Path := "/home/u/.go-ipfs"; Verbose := false |}.

(** The faults of an environment in which only the removal of the backup
    file fails. *)
Definition remove_fails : syscall -> bool :=
  fun c => match c with SysRemoveBackup => true | _ => false end.

(** The faults of an environment in which only the opening of the backup
    file fails. *)
Definition open_backup_fails : syscall -> bool :=
  fun c => match c with SysOpenBackup => true | _ => false end.

Definition swap_abc : Swap := {| Old := "/CIDv1-abc"; New := "/mh-abc" |}.
Definition swap_xyz : Swap := {| Old := "/CIDv1-xyz"; New := "/mh-xyz" |}.

(** The blocks of [one_block] after the step, and the backup file of it. *)
Definition one_block_migrated : gmap string Value := {[ "/mh-abc" := bytes123 ]}.
Definition one_block_log : string := backup_line swap_abc.

(** A backup file with a line that is no record in front of a record. *)
Definition garbled_log : string := "garbage" +:+ String LF one_block_log.


(** ** Package wire: the DATA_BLOCKED frame

    The second part of [ipfs-1-to-2/migration/migration.go].  [MaximumData]
    is kept as the number the varint carries; the conversions between
    [protocol.ByteCount] and [uint64] leave such a number as it is. *)

(** Errors of the reader: the end of the input, or a failure of the
    varint decoder. *)
Inductive wire_error :=
| ErrEOF
| ErrVarInt.

(** A [DataBlockedFrame] is a DATA_BLOCKED frame. *)
Record DataBlockedFrame := mkDataBlockedFrame { MaximumData : Z }.

(** [ReadByte] of [bytes.Reader]: the reader is the bytes not read yet. *)
Definition bytes_ReadByte (r : list Byte.byte)
    : (Byte.byte + wire_error) * list Byte.byte :=
  match r with
  | [] => (inr ErrEOF, [])
  | b :: r' => (inl b, r')
  end.

Section Wire.

(** The varint codec of package utils, which is not among the sources:
    [ReadVarInt] reads a value from the reader, [WriteVarInt] gives the
    bytes it appends to the buffer, [VarIntLen] the number of bytes it
    needs. *)
Variable ReadVarInt : list Byte.byte -> (Z + wire_error) * list Byte.byte.
Variable WriteVarInt : Z -> list Byte.byte.
Variable VarIntLen : Z -> Z.

Definition parseDataBlockedFrame (r : list Byte.byte)
    : (DataBlockedFrame + wire_error) * list Byte.byte :=
  match bytes_ReadByte r with
  | (inr err, r') => (inr err, r')
  | (inl _, r') =>
      match ReadVarInt r' with
      | (inr err, r'') => (inr err, r'')
      | (inl offset, r'') => (inl {| MaximumData := offset |}, r'')
      end
  end.

(** [Write] appends the type byte [0x14] and the varint of [MaximumData]
    to the buffer, and returns no error. *)
Definition DataBlockedFrame_Write (f : DataBlockedFrame) (b : list Byte.byte)
    : option wire_error * list Byte.byte :=
  let typeByte := Byte.x14 in
  let b := (b ++ [typeByte])%list in
  let b := (b ++ WriteVarInt (MaximumData f))%list in
  (None, b).

(** [Length] of a written frame. *)
Definition DataBlockedFrame_Length (f : DataBlockedFrame) : Z :=
  1 + VarIntLen (MaximumData f).

End Wire.

(** ** More notions for statements *)


Definition is_close_store (e : Event) : bool :=
  match e with
  | EvCloseStore => true
  | _ => false
  end.

(** The warning of [Apply] about a backup file that exists. *)
Definition backup_exists_warning (opts : Options) : LogLine :=
  Log "WARN: backup file %s already exists. CIDs-Multihash pairs will be appended"
    [AStr (filepath_Join (Path opts) backupFile)].

(** The number of occurrences of a byte in a string. *)
Fixpoint str_count (c : ascii) (s : string) : nat :=
  match s with
  | EmptyString => 0
  | String a s' => (if decide (a = c) then 1 else 0) + str_count c s'
  end.

(** [strings.Contains(s, sub)]. *)
Fixpoint str_contains (sub s : string) : bool :=
  has_prefix sub s ||
  match s with
  | EmptyString => false
  | String _ s' => str_contains sub s'
  end.

(** The flatfs store of a repo, empty when the blocks directory is not
    there yet. *)
Definition flatfs_of (r : Repo1) : Datastore := default (plain_store ∅) (r_blocks r).

(** The key of flatfs for a key of leveldb under [/b/], and the key of
    leveldb for a key of flatfs, as [transferBlocks] builds them. *)
Definition flat_key (NewKey : string -> Key) (K : string) : Key :=
  NewKey (str_drop 3 K).

Definition ldb_key (NewKey : string -> Key) (k : string) : Key :=
  NewKey ("/b/" +:+ k).

(** The keys of a leveldb store under [/b/] survive the way to flatfs and
    back: they are in normal form, so are their flatfs keys, and the flatfs
    key of a key leads back to it. *)
Definition keys_round_trip (NewKey : string -> Key) (ldb : Datastore) : Prop :=
  Forall (fun K => NewKey K = K /\ NewKey (flat_key NewKey K) = flat_key NewKey K /\
                   ldb_key NewKey (flat_key NewKey K) = K)
    (List.filter (has_prefix "/b/") (ds_keys ldb)).

(** ** More sample worlds *)

(** A varint codec in the manner of QUIC for values below [2^14]: one byte
    for values below 64, two bytes with the prefix [01] otherwise. *)
Definition sample_WriteVarInt (v : Z) : list Byte.byte :=
  if (v <? 64)%Z then [default Byte.x00 (Byte.of_N (Z.to_N v))]
  else [default Byte.x00 (Byte.of_N (Z.to_N (Z.lor 64 (Z.shiftr v 8))));
        default Byte.x00 (Byte.of_N (Z.to_N (Z.land v 255)))].

Definition sample_ReadVarInt (r : list Byte.byte)
    : (Z + wire_error) * list Byte.byte :=
  match r with
  | [] => (inr ErrEOF, [])
  | b :: r' =>
      let x := Z.of_N (Byte.to_N b) in
      if (x <? 64)%Z then (inl x, r')
      else if (x <? 128)%Z then
        match r' with
        | [] => (inr ErrEOF, [])
        | c :: r'' => (inl (Z.lor (Z.shiftl (Z.land x 63) 8) (Z.of_N (Byte.to_N c))), r'')
        end
      else (inr ErrVarInt, r')
  end.

Definition sample_VarIntLen (v : Z) : Z := if (v <? 64)%Z then 1 else 2.

(** The faults of an environment in which only the closing of the backup
    file fails, and of one in which only renaming fails. *)
Definition close_fails : syscall -> bool :=
  fun c => match c with SysCloseBackup => true | _ => false end.

Definition rename_fails : syscall -> bool :=
  fun c => match c with SysRename _ _ => true | _ => false end.

(** A version-9 repo without its backup file. *)
Definition repo9_without_backup (m : gmap string Value) : World8 :=
  {| lock := Unlocked; version := "9"; blocks := plain_store m; backup := None;
     wbuf := EmptyString; faulty := no_faults; scan_error_at := None;
     trace := []; output := [] |}.

(** A version-8 repo with a backup file left by an earlier run. *)
Definition repo8_with_backup (m : gmap string Value) (log : string) : World8 :=
  {| lock := Unlocked; version := "8"; blocks := plain_store m; backup := Some log;
     wbuf := EmptyString; faulty := no_faults; scan_error_at := None;
     trace := []; output := [] |}.

(** A swap with a comma in its old key. *)
Definition swap_comma : Swap := {| Old := "/a,b"; New := "/mh-ab" |}.

(** A version-1 repo at a path without [.go-ipfs]. *)
Definition sample_opts_plain : Options := {| Path := "/home/u/repo"; Verbose := false |}.

Definition world1_plain (m : gmap string Value) : World1 :=
  {| fs := {[ "/home/u/repo" :=
                RepoDir {| r_version := "1"; r_ldb := plain_store m; r_blocks := None |} ]};
     faulty1 := no_faults; trace1 := [] |}.

Definition world1_with_faults (w : World1) (f : syscall -> bool) : World1 :=
  {| fs := fs w; faulty1 := f; trace1 := trace1 w |}.

(** The five blocks in a leveldb on which the third [Put] of a transfer to
    flatfs fails. *)
Definition flatfs_put_fails : Datastore :=
  {| entries := ∅; get_faults := ∅; put_faults := {[ "/k3" ]}; delete_faults := ∅;
     query_fault := false |}.

(** The five blocks next to a key outside the prefix [/b/]. *)
Definition blocks_and_local : gmap string Value := <[ "/local/x" := bytes45 ]> five_blocks.

(** The error of the version check of the 1-to-2 step for the version
    [expected], when the check fails. *)
Definition version_check_error (expected : string) (w : World1) (path : string)
    : option error :=
  match fs w !! path with
  | Some (RepoDir repo) =>
      if decide (r_version repo = expected) then None
      else Some (ErrVersionsDiffer expected (r_version repo))
  | _ => Some (ErrNoVersionFile path)
  end.


(** * Properties *)

(** ** Byte strings *)

Lemma append_String (a : ascii) (s t : string) :
  String a s +:+ t = String a (s +:+ t).
Proof. reflexivity. Qed.

Lemma append_Empty (t : string) : EmptyString +:+ t = t.
Proof. reflexivity. Qed.

Lemma str_length_app (s t : string) :
  String.length (s +:+ t) = (String.length s + String.length t)%nat.
Proof. induction s as [|a s IH]; [done|]. rewrite append_String. simpl. by rewrite IH. Qed.

Lemma has_prefix_app (p s : string) : has_prefix p (p +:+ s) = true.
Proof.
  induction p as [|a p IH]; [done|].
  rewrite append_String. simpl. by rewrite decide_True.
Qed.

Lemma str_drop_app (p s : string) : str_drop (String.length p) (p +:+ s) = s.
Proof. induction p as [|a p IH]; [done|]. rewrite append_String. simpl. done. Qed.

Lemma has_prefix_split (p s : string) :
  has_prefix p s = true -> s = p +:+ str_drop (String.length p) s.
Proof.
  revert s. induction p as [|a p IH]; intros s H; simpl in *; [done|].
  destruct s as [|b s]; [done|].
  destruct (decide (a = b)) as [->|]; [|done].
  rewrite append_String. f_equal. by apply IH.
Qed.

Lemma str_take_drop (n : nat) (s : string) : str_take n s +:+ str_drop n s = s.
Proof.
  revert s. induction n as [|n IH]; intros [|c s]; simpl; try done.
  by rewrite append_String, IH.
Qed.

Lemma string_app_assoc (a b c : string) : (a +:+ b) +:+ c = a +:+ (b +:+ c).
Proof. induction a as [|x a IH]; [done|]. by rewrite !append_String, IH. Qed.

Lemma string_app_nil_r (a : string) : a +:+ EmptyString = a.
Proof. induction a as [|x a IH]; [done|]. by rewrite append_String, IH. Qed.

Lemma str_mem_app (c : ascii) (a b : string) :
  str_mem c (a +:+ b) = str_mem c a || str_mem c b.
Proof.
  induction a as [|x a IH]; [done|]. rewrite append_String. simpl.
  by destruct (decide (x = c)).
Qed.

Lemma dropCR_no_CR (s : string) : str_mem CR s = false -> dropCR s = s.
Proof.
  induction s as [|c s IH]; [done|]. simpl.
  destruct (decide (c = CR)); [done|]. intros H.
  destruct s; [done|]. by rewrite IH.
Qed.

Lemma scan_lines_from_line (l : string) :
  forall cur rest,
    str_mem LF l = false ->
    scan_lines_from cur (l +:+ String LF rest) =
      dropCR (cur +:+ l) :: scan_lines_from EmptyString rest.
Proof.
  induction l as [|c l IH]; intros cur rest H.
  - rewrite append_Empty, string_app_nil_r. simpl. by rewrite ?decide_True.
  - simpl in H. destruct (decide (c = LF)); [done|].
    rewrite append_String. simpl. rewrite ?decide_False by done.
    rewrite IH by done. by rewrite string_app_assoc.
Qed.




(** ** The datastore *)

Lemma ds_keys_NoDup (d : Datastore) : NoDup (ds_keys d).
Proof. apply NoDup_fst_map_to_list. Qed.

Lemma elem_of_ds_keys (d : Datastore) (k : string) :
  k ∈ ds_keys d <-> is_Some (entries d !! k).
Proof.
  unfold ds_keys. rewrite list_elem_of_fmap. split.
  - intros [[k' v] [-> Hin]]. apply elem_of_map_to_list in Hin. by exists v.
  - intros [v Hv]. exists (k, v). split; [done|]. by apply elem_of_map_to_list.
Qed.

Lemma elem_of_filter_bool {A} (f : A -> bool) (l : list A) (x : A) :
  x ∈ List.filter f l <-> x ∈ l /\ f x = true.
Proof. rewrite !list_elem_of_In. apply filter_In. Qed.

Lemma NoDup_filter_bool {A} (f : A -> bool) (l : list A) :
  NoDup l -> NoDup (List.filter f l).
Proof. rewrite !NoDup_ListNoDup. apply List.NoDup_filter. Qed.

(** Every key a query lists starts with the prefix, so that slicing the
    prefix off is in range. *)
Lemma ds_Query_prefix (d : Datastore) (p : string) (res : list string) :
  ds_Query d p = inl res ->
  Forall (fun K => has_prefix p K = true /\ (String.length p <= String.length K)%nat) res.
Proof.
  unfold ds_Query. destruct (query_fault d); [done|].
  intros [= <-]. apply Forall_forall. intros K HK.
  apply elem_of_filter_bool in HK as [_ HK]. split; [done|].
  apply has_prefix_split in HK. apply (f_equal String.length) in HK.
  rewrite str_length_app in HK. lia.
Qed.

Lemma datastore_eq (d d' : Datastore) :
  entries d = entries d' -> get_faults d = get_faults d' ->
  put_faults d = put_faults d' -> delete_faults d = delete_faults d' ->
  query_fault d = query_fault d' -> d = d'.
Proof. destruct d, d'; simpl. by intros -> -> -> -> ->. Qed.

Lemma filter_has_prefix_empty (l : list string) :
  List.filter (has_prefix EmptyString) l = l.
Proof.
  induction l as [|k l IH]; [done|]. cbn [List.filter].
  destruct k; cbn [has_prefix]; f_equal; exact IH.
Qed.

(** ** The swapper *)

Section Swapper.

Variable newKeyOf : Key -> Key + error.






End Swapper.

(** ** The state monad *)

Lemma wp_run {W A} (c : M W A) (Q : A -> W -> Prop) (w : W) :
  wp c Q w -> forall a w', c w = (a, w') -> Q a w'.
Proof. unfold wp. intros H a w' E. by rewrite E in H. Qed.

Lemma wp_bind {W A B} (c : M W A) (k : A -> M W B) (Q : B -> W -> Prop) (w : W) :
  wp c (fun a w' => wp (k a) Q w') w -> wp (c ≫= k) Q w.
Proof. unfold wp, mbind, M_bind. by destruct (c w). Qed.

Lemma wp_ret {W A} (a : A) (Q : A -> W -> Prop) (w : W) : Q a w -> wp (ret a) Q w.
Proof. done. Qed.

Lemma wp_eq {W A} (c : M W A) (Q : A -> W -> Prop) (w : W) (a : A) (w' : W) :
  c w = (a, w') -> Q a w' -> wp c Q w.
Proof. unfold wp. by intros ->. Qed.

Lemma wp_get_world {W} (Q : W -> W -> Prop) (w : W) : Q w w -> wp get_world Q w.
Proof. done. Qed.

Lemma wp_mono {W A} (c : M W A) (Q Q' : A -> W -> Prop) (w : W) :
  wp c Q w -> (forall a w', Q a w' -> Q' a w') -> wp c Q' w.
Proof. unfold wp. destruct (c w). auto. Qed.

(** ** Primitives of the 8-to-9 world *)

Lemma log_VLog_eq (opts : Options) (fmt : string) (args : list LogArg) (w : World8) :
  log_VLog opts fmt args w =
    (tt, {| lock := lock w; version := version w; blocks := blocks w; backup := backup w;
            wbuf := wbuf w; faulty := faulty w; scan_error_at := scan_error_at w;
            trace := trace w; output := (output w ++ vlog_lines opts fmt args)%list |}).
Proof.
  unfold log_VLog, vlog_lines, print, ret. destruct (Verbose opts); [done|].
  rewrite app_nil_r. by destruct w.
Qed.

Lemma f_Close_eq (w : World8) :
  f_Close w =
    (if faulty w SysCloseBackup then Some (ErrSys SysCloseBackup) else None,
     {| lock := lock w; version := version w; blocks := blocks w; backup := backup w;
        wbuf := wbuf w; faulty := faulty w; scan_error_at := scan_error_at w;
        trace := (trace w ++ [EvCloseBackup (negb (faulty w SysCloseBackup))])%list;
        output := output w |}).
Proof.
  unfold f_Close, mbind, M_bind, get_world, emit, ret, mret, M_ret.
  by destruct (faulty w SysCloseBackup).
Qed.

Lemma bufio_Flush_eq (w : World8) (b : string) :
  backup w = Some b ->
  bufio_Flush w =
    (tt, {| lock := lock w; version := version w; blocks := blocks w;
            backup := Some (b +:+ wbuf w); wbuf := EmptyString; faulty := faulty w;
            scan_error_at := scan_error_at w;
            trace := (trace w ++ EvFlush :: flush_events (wbuf w))%list;
            output := output w |}).
Proof.
  intros Hb. destruct w as [l v bl bk wb fa sc tr out]; simpl in *. subst bk.
  unfold bufio_Flush, bufio_flush, flush_events, file_Write, mbind, M_bind, get_world,
    emit, set_backup, set_wbuf, ret, mret, M_ret. simpl.
  case_decide; simpl.
  - subst. by rewrite string_app_nil_r.
  - by rewrite <- app_assoc.
Qed.

(** A write through the buffer loses nothing and reorders nothing: the file
    followed by the buffer grows by the bytes written. *)
Lemma bufio_Write_spec (p : string) (w : World8) (b0 : string) :
  backup w = Some b0 ->
  exists b buf evs,
    bufio_Write p w =
      (tt, {| lock := lock w; version := version w; blocks := blocks w;
              backup := Some b; wbuf := buf; faulty := faulty w;
              scan_error_at := scan_error_at w; trace := (trace w ++ evs)%list;
              output := output w |}) /\
    Forall (fun e => is_file_write e = true) evs /\
    b +:+ buf = b0 +:+ wbuf w +:+ p.
Proof.
  intros Hb.
  destruct w as [l v bl bk wb fa sc tr out]; simpl in *. subst bk.
  unfold bufio_Write, bufio_flush, file_Write, mbind, M_bind, get_world,
    emit, set_backup, set_wbuf, ret, mret, M_ret. simpl.
  repeat case_decide; simpl.
  - exists b0, (wb +:+ p), []. rewrite app_nil_r. done.
  - subst wb. exists (b0 +:+ p), EmptyString, [EvFileWrite p].
    split; [done|]. split; [by repeat constructor|].
    by rewrite string_app_nil_r.
  - destruct wb; [done|]. rewrite append_String in *. done.
  - destruct wb; [done|]. rewrite append_String in *. done.
  - exists (b0 +:+ wb +:+ str_take (defaultBufSize - String.length wb) p),
      (str_drop (defaultBufSize - String.length wb) p),
      [EvFileWrite (wb +:+ str_take (defaultBufSize - String.length wb) p)].
    split; [done|]. split; [by repeat constructor|].
    rewrite !string_app_assoc. by rewrite str_take_drop.
  - exists ((b0 +:+ wb +:+ str_take (defaultBufSize - String.length wb) p) +:+
              str_drop (defaultBufSize - String.length wb) p), EmptyString,
      [EvFileWrite (wb +:+ str_take (defaultBufSize - String.length wb) p);
       EvFileWrite (str_drop (defaultBufSize - String.length wb) p)].
    split; [by rewrite <- app_assoc|]. split; [by repeat constructor|].
    rewrite !string_app_assoc, string_app_nil_r. by rewrite str_take_drop.
Qed.

Lemma writer_goroutine_spec (sent : list Swap) :
  forall (w : World8) (b0 : string),
  backup w = Some b0 ->
  exists b buf evs,
    writer_goroutine sent w =
      (tt, {| lock := lock w; version := version w; blocks := blocks w;
              backup := Some b; wbuf := buf; faulty := faulty w;
              scan_error_at := scan_error_at w; trace := (trace w ++ evs)%list;
              output := output w |}) /\
    Forall (fun e => is_file_write e = true) evs /\
    b +:+ buf = b0 +:+ wbuf w +:+ str_concat (map backup_line sent).
Proof.
  induction sent as [|sw sent IH]; intros w b0 Hb.
  - exists b0, (wbuf w), []. destruct w; simpl in *. subst.
    rewrite app_nil_r, string_app_nil_r. done.
  - destruct (bufio_Write_spec (backup_line sw) w b0 Hb)
      as (b1 & buf1 & evs1 & E1 & F1 & C1).
    simpl. unfold mbind, M_bind. rewrite E1.
    match goal with |- context [writer_goroutine sent ?w1] =>
      destruct (IH w1 b1 eq_refl) as (b2 & buf2 & evs2 & E2 & F2 & C2) end.
    rewrite E2. simpl in *.
    exists b2, buf2, (evs1 ++ evs2)%list. split; [by rewrite app_assoc|].
    split; [by apply Forall_app|].
    rewrite C2. rewrite <- string_app_assoc, C1. by rewrite !string_app_assoc.
Qed.

Lemma wp_writer (sent : list Swap) (Q : unit -> World8 -> Prop) (w : World8) (b0 : string) :
  backup w = Some b0 ->
  (forall b buf evs,
     Forall (fun e => is_file_write e = true) evs ->
     b +:+ buf = b0 +:+ wbuf w +:+ str_concat (map backup_line sent) ->
     Q tt {| lock := lock w; version := version w; blocks := blocks w;
             backup := Some b; wbuf := buf; faulty := faulty w;
             scan_error_at := scan_error_at w; trace := (trace w ++ evs)%list;
             output := output w |}) ->
  wp (writer_goroutine sent) Q w.
Proof.
  intros Hb HQ.
  destruct (writer_goroutine_spec sent w b0 Hb) as (b & buf & evs & E & F & C).
  eapply wp_eq; [exact E|]. by apply HQ.
Qed.

Lemma well_formed_split (line : string) :
  well_formed line =
    match strings_Split comma line with
    | [_; _] => true
    | _ => false
    end.
Proof.
  unfold well_formed.
  by destruct (strings_Split comma line) as [|a [|b [|c l]]].
Qed.

(** The scanner goroutine turns the well-formed lines into records, in
    order, and reports every other line. *)
Lemma scan_records_spec (NewKey : string -> string) (lines : list string) (w : World8) :
  scan_records NewKey lines w =
    (map (record_of NewKey) (List.filter well_formed lines),
     {| lock := lock w; version := version w; blocks := blocks w; backup := backup w;
        wbuf := wbuf w; faulty := faulty w; scan_error_at := scan_error_at w;
        trace := trace w;
        output := (output w ++ map bad_line_report
                     (List.filter (fun l => negb (well_formed l)) lines))%list |}).
Proof.
  revert w. induction lines as [|line lines IH]; intros w.
  - simpl. rewrite app_nil_r. by destruct w.
  - cbn [scan_records List.filter]. rewrite well_formed_split.
    destruct (strings_Split comma line) as [|a [|b [|c l]]] eqn:E;
      unfold mbind, M_bind, log_Error, print, ret, mret, M_ret;
      rewrite IH; cbn [negb map]; simpl; rewrite <- ?app_assoc; try done.
    unfold record_of at 2. by rewrite E.
Qed.

(** ** The backup file *)

Lemma backup_line_text (sw : Swap) (rest : string) :
  backup_line sw +:+ rest = record_text sw +:+ String LF rest.
Proof.
  unfold backup_line, record_text.
  change ("," +:+ ?x) with (String comma x).
  rewrite !string_app_assoc. f_equal. rewrite append_String. f_equal.
  by rewrite string_app_assoc.
Qed.




Lemma unswap_loop_done (recs : list Swap) :
  forall st st' reverted,
    unswap_loop recs st = (None, st', reverted) -> reverted = recs.
Proof.
  induction recs as [|sw recs IH]; intros st st' reverted H; simpl in H.
  - by injection H as _ <-.
  - destruct (ds_Get st (New sw)) as [v|]; [|done].
    destruct (ds_Put st (Old sw) v) as [[e|] st1]; [done|].
    destruct (ds_Delete st1 (New sw)) as [[e|] st2]; [done|].
    destruct (unswap_loop recs st2) as [[err st3] rev'] eqn:E.
    injection H as -> <- <-. f_equal. by eapply IH.
Qed.

Lemma healthy_revert_ready (w : World8) : healthy w -> revert_ready w.
Proof. intros [Hl Hf]. unfold revert_ready. by rewrite !Hf. Qed.

(** ** Symbolic execution *)

Ltac msimpl :=
  cbn beta iota zeta delta
    [fst snd lock version blocks backup wbuf faulty scan_error_at trace output
     fs faulty1 trace1 negb IsNotExist].

Ltac case_bool b :=
  first [ match goal with H : b = _ |- _ => rewrite H end | destruct b eqn:? ].

Ltac mstep :=
  msimpl;
  lazymatch goal with
  | |- wp (mbind _ _) _ _ => apply wp_bind
  | |- wp (ret _) _ _ => apply wp_ret
  | |- wp (mret _) _ _ => apply wp_ret
  | |- wp get_world _ _ => apply wp_get_world
  | |- wp (defer _ _) _ _ => unfold defer at 1
  | |- wp (if ?b then _ else _) _ _ => first [ case_decide | case_bool b ]
  | |- wp (match (if ?b then _ else _) with inl _ => _ | inr _ => _ end) _ _ =>
      case_bool b
  | |- wp (match (if ?b then _ else _) with Some _ => _ | None => _ end) _ _ =>
      case_bool b
  | |- wp (match ?x with inl _ => _ | inr _ => _ end) _ _ => destruct x eqn:?
  | |- wp (match ?x with Some _ => _ | None => _ end) _ _ => destruct x eqn:?
  | |- wp (match ?x with Unlocked => _ | _ => _ end) _ _ => destruct x eqn:?
  | |- wp (match ?x with (_, _) => _ end) _ _ => destruct x as [[? ?] ?] eqn:?
  | |- wp (mg8_lock _) _ _ => unfold mg8_lock
  | |- wp (lock_Lock2 _) _ _ => unfold lock_Lock2
  | |- wp lk_Close _ _ => unfold lk_Close
  | |- wp (mfsr_CheckVersion _ _) _ _ => unfold mfsr_CheckVersion
  | |- wp (mfsr_WriteVersion _ _) _ _ => unfold mfsr_WriteVersion
  | |- wp (mg8_open _) _ _ => unfold mg8_open
  | |- wp dstore_Close _ _ => unfold dstore_Close
  | |- wp (os_Stat _) _ _ => unfold os_Stat
  | |- wp (os_OpenFile _) _ _ => unfold os_OpenFile
  | |- wp (os_Open _) _ _ => unfold os_Open
  | |- wp (os_Remove_backup _) _ _ => unfold os_Remove_backup
  | |- wp (CidSwapper_Run _) _ _ => unfold CidSwapper_Run, ds_Query
  | |- wp (CidSwapper_Revert _) _ _ => unfold CidSwapper_Revert
  | |- wp (scanner_goroutine _ _) _ _ => unfold scanner_goroutine
  | |- wp (mg8_Apply_append _ _ _) _ _ => unfold mg8_Apply_append
  | |- wp (mg8_Apply _ _) _ _ => unfold mg8_Apply
  | |- wp (mg8_Revert _ _) _ _ => unfold mg8_Revert
  | |- wp (log_Log _ _) _ _ => unfold log_Log
  | |- wp (log_Error _ _) _ _ => unfold log_Error
  | |- wp (log_VLog _ _ _) _ _ => eapply wp_eq; [apply log_VLog_eq|]
  | |- wp f_Close _ _ => eapply wp_eq; [apply f_Close_eq|]
  | |- wp bufio_Flush _ _ => eapply wp_eq; [apply bufio_Flush_eq; reflexivity|]
  | |- wp (scan_records _ _) _ _ => eapply wp_eq; [apply scan_records_spec|]
  | |- wp (writer_goroutine _) _ _ =>
      eapply wp_writer; [reflexivity|cbn [wbuf]; intros ? ? ? ? ?]
  | |- wp (set_lock _) _ _ => eapply wp_eq; [reflexivity|]
  | |- wp (set_version _) _ _ => eapply wp_eq; [reflexivity|]
  | |- wp (set_blocks _) _ _ => eapply wp_eq; [reflexivity|]
  | |- wp (set_backup _) _ _ => eapply wp_eq; [reflexivity|]
  | |- wp (set_wbuf _) _ _ => eapply wp_eq; [reflexivity|]
  | |- wp (emit _) _ _ => eapply wp_eq; [reflexivity|]
  | |- wp (emits _) _ _ => eapply wp_eq; [reflexivity|]
  | |- wp (print _) _ _ => eapply wp_eq; [reflexivity|]
  | |- wp (mfsr_CheckVersion1 _ _) _ _ => unfold mfsr_CheckVersion1
  | |- wp (mfsr_WriteVersion1 _ _) _ _ => unfold mfsr_WriteVersion1
  | |- wp (os_Mkdir _) _ _ => unfold os_Mkdir
  | |- wp (os_Remove _) _ _ => unfold os_Remove
  | |- wp (os_Rename _ _) _ _ => unfold os_Rename
  | |- wp (sanityChecks _) _ _ => unfold sanityChecks
  | |- wp (moveIpfsDir _) _ _ => unfold moveIpfsDir
  | |- wp (reverseIpfsDir _) _ _ => unfold reverseIpfsDir
  | |- wp (store_back _ _ _ _) _ _ => unfold store_back
  | |- wp (transferBlocksToFlatDB _ _) _ _ => unfold transferBlocksToFlatDB
  | |- wp (transferBlocksFromFlatDB _ _) _ _ => unfold transferBlocksFromFlatDB
  | |- wp (mg1_Apply _ _) _ _ => unfold mg1_Apply
  | |- wp (mg1_Revert _ _) _ _ => unfold mg1_Revert
  | |- wp (emit1 _) _ _ => eapply wp_eq; [reflexivity|]
  | |- wp (set_fs _) _ _ => eapply wp_eq; [reflexivity|]
  | |- wp (match ?x with _ => _ end) _ _ => destruct x eqn:?
  end.

(** Symbolic execution, trying [tac] on every path after every step. *)
Tactic Notation "mrun" "with" tactic3(tac) := repeat (mstep; try tac).
Tactic Notation "mrun" := repeat mstep.

Ltac mstart w := destruct w as [lk ver bl bk wb fa sc tr out].
Ltac mstart1 w := destruct w as [fs0 fa tr].

(** Turns a statement about every result of a run into a [wp]. *)
Ltac by_wp :=
  lazymatch goal with
  | |- forall r w', ?c ?w = (r, w') -> @?G r w' => apply (wp_run c G w)
  end.

(** ** Events *)

Lemma step_events_eq (w w' : World8) (evs : list Event) :
  trace w' = (trace w ++ evs)%list -> step_events w w' = evs.
Proof. unfold step_events. intros ->. by rewrite drop_app_length. Qed.

Lemma step_events1_eq (w w' : World1) (evs : list Event) :
  trace1 w' = (trace1 w ++ evs)%list -> step_events1 w w' = evs.
Proof. unfold step_events1. intros ->. by rewrite drop_app_length. Qed.

Lemma step_output_eq (w w' : World8) (ls : list LogLine) :
  output w' = (output w ++ ls)%list -> step_output w w' = ls.
Proof. unfold step_output. intros ->. by rewrite drop_app_length. Qed.

Lemma swapper_done_true (d : Decision (@None error = None)) :
  @bool_decide _ d = true.
Proof. by destruct d. Qed.

Lemma swapper_done_false (e : error) (d : Decision (Some e = None)) :
  @bool_decide _ d = false.
Proof. by destruct d. Qed.

(** Puts the events and the output of a step in the form of one list. *)
Ltac norm_events :=
  rewrite ?swapper_done_true, ?swapper_done_false;
  repeat first
    [ erewrite step_events_eq by (cbn [trace]; rewrite <- ?app_assoc; reflexivity)
    | erewrite step_events1_eq by (cbn [trace1]; rewrite <- ?app_assoc; reflexivity)
    | erewrite step_output_eq by (cbn [output]; rewrite <- ?app_assoc; reflexivity) ];
  cbn [app].

Lemma snoc_nil {A} (x : A) : [x] = ([] ++ [x])%list.
Proof. done. Qed.

Lemma snoc_cons {A} (a : A) (l mid : list A) (x : A) :
  l = (mid ++ [x])%list -> a :: l = ((a :: mid) ++ [x])%list.
Proof. by intros ->. Qed.

Lemma snoc_app {A} (l1 l mid : list A) (x : A) :
  l = (mid ++ [x])%list -> (l1 ++ l)%list = ((l1 ++ mid) ++ [x])%list.
Proof. intros ->. by rewrite app_assoc. Qed.

(** Solves [l = ?mid ++ [x]] for a list [l] that ends in [x]. *)
Ltac snoc_solve :=
  repeat first [ exact (snoc_nil _) | eapply snoc_cons | eapply snoc_app ].

Lemma split_here {A} (x : A) (post : list A) : x :: post = ([] ++ x :: post)%list.
Proof. done. Qed.

Lemma split_cons {A} (a : A) (l pre : list A) (x : A) (post : list A) :
  l = (pre ++ x :: post)%list -> a :: l = ((a :: pre) ++ x :: post)%list.
Proof. by intros ->. Qed.

Lemma split_app {A} (l1 l pre : list A) (x : A) (post : list A) :
  l = (pre ++ x :: post)%list -> (l1 ++ l)%list = ((l1 ++ pre) ++ x :: post)%list.
Proof. intros ->. by rewrite app_assoc. Qed.

(** Solves [l = ?pre ++ x :: ?post] at the first [x] of [l]. *)
Ltac split_solve :=
  repeat first [ exact (split_here _ _) | eapply split_cons | eapply split_app ].

Lemma seg_here {A} (seg post : list A) : (seg ++ post)%list = ([] ++ seg ++ post)%list.
Proof. done. Qed.

Lemma seg_cons {A} (a : A) (l pre seg post : list A) :
  l = (pre ++ seg ++ post)%list -> a :: l = ((a :: pre) ++ seg ++ post)%list.
Proof. by intros ->. Qed.

Lemma seg_app {A} (l1 l pre seg post : list A) :
  l = (pre ++ seg ++ post)%list -> (l1 ++ l)%list = ((l1 ++ pre) ++ seg ++ post)%list.
Proof. intros ->. by rewrite app_assoc. Qed.

(** Solves [l = ?pre ++ seg ++ ?post] at the first occurrence of [seg]. *)
Ltac seg_solve :=
  repeat first [ exact (seg_here _ _) | eapply seg_cons | eapply seg_app ].

(** Solves [x ∈ l] for an explicit list [l]. *)
Ltac elem_solve :=
  repeat first
    [ by apply list_elem_of_here
    | apply list_elem_of_further
    | apply elem_of_app; right ].

Lemma file_write_not_lock (evs : list Event) :
  Forall (fun e => is_file_write e = true) evs ->
  Forall (fun e => is_lock_event e = false) evs.
Proof. intros H. eapply Forall_impl; [exact H|]. by intros []. Qed.

Lemma Forall_map_swap (P : Event -> Prop) (l : list Swap) :
  (forall sw, P (swap_event sw)) -> Forall P (map swap_event l).
Proof. intros H. apply Forall_fmap, Forall_forall. intros sw _. apply H. Qed.

Lemma Forall_map_unswap (P : Event -> Prop) (l : list Swap) :
  (forall sw, P (unswap_event sw)) -> Forall P (map unswap_event l).
Proof. intros H. apply Forall_fmap, Forall_forall. intros sw _. apply H. Qed.

Lemma Forall_flush_events (P : Event -> Prop) (buf : string) :
  (forall s, P (EvFileWrite s)) -> Forall P (flush_events buf).
Proof. intros H. unfold flush_events. case_decide; repeat constructor. apply H. Qed.

Section Properties.

Variable NewKey : string -> Key.

(** ** transferBlocks *)

Lemma transferBlocks_loop_ok (fpref tpref : string) (ks : list string) :
  forall from to from' to',
    NoDup ks ->
    Forall (fun K => NewKey K = K) ks ->
    NoDup (map (target_key NewKey fpref tpref) ks) ->
    transferBlocks_loop NewKey ks from to fpref tpref = (None, from', to') ->
    (forall K, K ∈ ks ->
       exists v, entries from !! K = Some v /\
                 entries to' !! target_key NewKey fpref tpref K = Some v /\
                 entries from' !! K = None) /\
    (forall K, K ∉ ks -> entries from' !! K = entries from !! K) /\
    (forall j, j ∉ map (target_key NewKey fpref tpref) ks ->
       entries to' !! j = entries to !! j).
Proof.
  induction ks as [|k ks IH]; intros from to from' to' Hnd Hcan Htgt Hrun.
  - simpl in Hrun. injection Hrun as <- <-.
    split; [intros K HK; by apply elem_of_nil in HK|done].
  - apply NoDup_cons in Hnd as [Hk Hnd].
    apply Forall_cons in Hcan as [Hck Hcan].
    simpl in Htgt. apply NoDup_cons in Htgt as [Htk Htgt].
    simpl in Hrun. rewrite Hck in Hrun.
    fold (target_key NewKey fpref tpref k) in Hrun.
    unfold ds_Get in Hrun.
    destruct (decide (k ∈ get_faults from)); simpl in Hrun; [done|].
    destruct (entries from !! k) as [v|] eqn:Hv; simpl in Hrun; [|done].
    unfold ds_Put in Hrun.
    case_decide; simpl in Hrun; [done|].
    unfold ds_Delete in Hrun.
    case_decide; simpl in Hrun; [done|].
    apply IH in Hrun as (Hin & Hout & Hto); [|done..].
    simpl in *. split; [|split].
    + intros K HK. apply elem_of_cons in HK as [->|HK].
      * exists v. split; [done|]. split.
        -- rewrite Hto by done. by rewrite lookup_insert_eq.
        -- rewrite Hout by done. by rewrite lookup_delete_eq.
      * destruct (Hin K HK) as (v' & Hf & Ht & Hn).
        exists v'. split; [|done].
        rewrite lookup_delete_ne in Hf; [done|]. intros ->. done.
    + intros K HK. apply not_elem_of_cons in HK as [Hne HK].
      rewrite Hout by done. by rewrite lookup_delete_ne.
    + intros j Hj. apply not_elem_of_cons in Hj as [Hne Hj].
      rewrite Hto by done. by rewrite lookup_insert_ne.
Qed.

(** C5.  After a successful [transferBlocks from to fpref tpref], every key
    [K] of the source that starts with [fpref] is gone from the source, and
    the destination holds the source's value for it under the key built from
    [tpref] and [K] without [fpref].  The keys of the source are in the
    normal form of the datastore, and distinct keys are rewritten to
    distinct keys. *)
Theorem transferBlocks_moves_every_key
    (from to from' to' : Datastore) (fpref tpref : string) :
  Forall (fun K => NewKey K = K) (List.filter (has_prefix fpref) (ds_keys from)) ->
  NoDup (map (target_key NewKey fpref tpref) (List.filter (has_prefix fpref) (ds_keys from))) ->
  transferBlocks NewKey from to fpref tpref = (None, from', to') ->
  forall K v,
    entries from !! K = Some v -> has_prefix fpref K = true ->
    entries to' !! NewKey (tpref +:+ str_drop (String.length fpref) K) = Some v /\
    entries from' !! K = None.
Proof.
  intros Hcan Htgt Hrun K v HK Hp.
  unfold transferBlocks, ds_Query in Hrun.
  destruct (query_fault from); [done|].
  apply transferBlocks_loop_ok in Hrun as (Hin & _ & _);
    [|by apply NoDup_filter_bool, ds_keys_NoDup|done..].
  destruct (Hin K) as (v' & Hf & Ht & Hn).
  - apply elem_of_filter_bool. split; [|done]. apply elem_of_ds_keys. by exists v.
  - rewrite HK in Hf. injection Hf as <-. done.
Qed.

End Properties.

Ltac forall_solve :=
  repeat first
    [ apply Forall_nil_2
    | apply Forall_cons_2; [done|]
    | apply Forall_app_2
    | apply Forall_map_swap; intros ?; done
    | apply Forall_map_unswap; intros ?; done
    | apply Forall_flush_events; intros ?; done
    | match goal with
      | F : Forall (fun e => is_file_write e = true) ?l |- Forall _ ?l =>
          eapply Forall_impl; [exact F|by intros []]
      end ].

(** Takes a hypothesis [H : e ∈ l] apart, for an explicit list of events
    [l]; what is left are the positions at which [e] can be. *)
Ltac seg_absurd H :=
  first
    [ apply list_elem_of_fmap in H; destruct H as (? & H & _); discriminate H
    | match goal with
      | F : Forall (fun e => is_file_write e = true) ?l, H' : _ ∈ ?l |- _ =>
          rewrite Forall_forall in F; apply F in H'; discriminate H'
      end
    | unfold flush_events in H; case_decide;
      [ by apply elem_of_nil in H
      | apply elem_of_cons in H; destruct H as [H|H];
        [discriminate H|by apply elem_of_nil in H] ] ].

Ltac inv_elem H :=
  repeat first
    [ apply elem_of_nil in H; destruct H
    | apply elem_of_cons in H; destruct H as [H|H]; [try discriminate H|]
    | apply elem_of_app in H; destruct H as [H|H]; [seg_absurd H|] ].

Lemma filter_swap_map_swap (l : list Swap) :
  List.filter is_swap (map swap_event l) = map swap_event l.
Proof. induction l as [|sw l IH]; [done|]. simpl. by rewrite IH. Qed.

Lemma filter_swap_map_unswap (l : list Swap) :
  List.filter is_swap (map unswap_event l) = map unswap_event l.
Proof. induction l as [|sw l IH]; [done|]. simpl. by rewrite IH. Qed.

Lemma filter_swap_file_writes (evs : list Event) :
  Forall (fun e => is_file_write e = true) evs -> List.filter is_swap evs = [].
Proof.
  induction 1 as [|e evs He _ IH]; [done|]. simpl. rewrite IH. by destruct e.
Qed.

Lemma filter_swap_flush_events (buf : string) :
  List.filter is_swap (flush_events buf) = [].
Proof. unfold flush_events. by case_decide. Qed.

Ltac filter_solve :=
  repeat first
    [ progress cbn [List.filter is_swap app]
    | rewrite List.filter_app
    | rewrite filter_swap_map_swap
    | rewrite filter_swap_map_unswap
    | rewrite filter_swap_flush_events
    | rewrite filter_swap_file_writes by assumption
    | rewrite app_nil_r ].

Section Mg8Properties.

Variable NewKey : string -> Key.
Variable newKeyOf : Key -> Key + error.

(** ** Apply of the 8-to-9 step *)




Ltac lock_closer :=
  norm_events;
  first [ left; by eauto
        | right; eexists; split; [f_equal; snoc_solve|]; split; [forall_solve|done] ].

Lemma mg8_Apply_locked (opts : Options) (w : World8) :
  forall r w', mg8_Apply newKeyOf opts w = (r, w') -> locked_throughout w r w'.
Proof.
  by_wp. mstart w. unfold locked_throughout. mrun. all: lock_closer.
Qed.

Lemma mg8_Revert_locked (opts : Options) (w : World8) :
  forall r w', mg8_Revert NewKey opts w = (r, w') -> locked_throughout w r w'.
Proof.
  by_wp. mstart w. unfold locked_throughout. mrun. all: lock_closer.
Qed.

(** ** The version check *)

(** C3.  On a repo whose version marker is not [8], [Apply] of the 8-to-9
    step fails at the version check: it returns an error (the version
    mismatch, when the lock could be taken), it does not open the store,
    swaps no key and writes nothing, and leaves blocks, version and backup
    file as they were.  [Revert] does the same on a repo whose version marker
    is not [9].  A repo that was migrated already has version [9], so a
    second [Apply] on it is refused in this way. *)
Theorem version_mismatch_fails_fast (opts : Options) (w : World8) :
  (version w <> "8" ->
   wp (mg8_Apply newKeyOf opts) (refused_at_version_check "8" w) w) /\
  (version w <> "9" ->
   wp (mg8_Revert NewKey opts) (refused_at_version_check "9" w) w).
Proof.
  split; intros Hv; mstart w; cbn [version] in Hv; unfold refused_at_version_check;
    (mrun with contradiction); norm_events;
    (split; [eexists; split; [done|]; cbn [lock faulty]; try congruence; done|]);
    (split; [forall_solve|done]).
Qed.

(** ** The version write of Apply *)

(** Whenever [Apply] of the 8-to-9 step returns an error the version marker
    is what it was.  The version file is written at most once, with [9],
    after the swapper returned without error, right after the writer
    goroutine was awaited, and no swap follows. *)
Lemma mg8_Apply_commit_last (opts : Options) (w : World8) :
  wp (mg8_Apply newKeyOf opts)
    (fun r w' =>
       (r <> None -> version w' = version w) /\
       commit_after_transform "9" (step_events w w') /\
       forall p v ok, EvWriteVersion p v ok ∈ step_events w w' ->
         exists pre post,
           step_events w w' =
             (pre ++ EvWritingDone :: EvWriteVersion p v ok :: post)%list) w.
Proof.
  mstart w. unfold commit_after_transform. mrun.
  all: norm_events; cbn [version].
  all: split; [done|].
  all: split; [intros p v ok Hin|intros p v ok Hin]; inv_elem Hin.
  all: try (injection Hin as -> -> ->).
  all: try (split; [done|]).
  all: eexists _, _;
    try (split; [split_solve|]; split; [forall_solve|]; split; [forall_solve|elem_solve]).
  all: split_solve.
Qed.

(** ** Revert of the 8-to-9 step *)

(** C8.  In every run of [Revert], a write of the version file writes [8]
    and comes right after the successful return of the swapper, which comes
    right after the inverse swaps of all the records the scanner delivered;
    before them there is no swap, no version write and no removal of the
    backup file, and after it no swap and no other version write.  The
    backup file is removed only in a run that returns no error, and then
    right after the successful version write and the close of the file. *)
Theorem mg8_Revert_order (opts : Options) (w : World8) :
  wp (mg8_Revert NewKey opts)
    (fun r w' =>
       (forall p v ok, EvWriteVersion p v ok ∈ step_events w w' ->
          v = "8" /\
          exists content pre post,
            backup w = Some content /\
            step_events w w' =
              (pre ++ map unswap_event
                        (map (record_of NewKey) (List.filter well_formed (scanned w content))) ++
               EvSwapperDone true :: EvWriteVersion p v ok :: post)%list /\
            Forall (fun e => is_swap e = false /\ is_write_version e = false /\
                             is_remove_backup e = false) pre /\
            Forall (fun e => is_swap e = false /\ is_write_version e = false) post) /\
       (forall ok, EvRemoveBackup ok ∈ step_events w w' ->
          r = None /\
          exists pre post,
            step_events w w' =
              (pre ++ EvWriteVersion (Path opts) "8" true :: EvCloseBackup true ::
               EvRemoveBackup ok :: post)%list)) w.
Proof.
  mstart w. unfold scanned. mrun.
  all: norm_events; cbn [backup scan_error_at].
  all: split; [intros p v ok Hin|intros ok Hin]; inv_elem Hin.
  all: try (injection Hin as -> -> ->); try (injection Hin as ->).
  all: try match goal with
           | H : unswap_loop _ _ = (None, _, _) |- _ => apply unswap_loop_done in H as ->
           end.
  all: split; [done|].
  all: lazymatch goal with
       | |- @ex string _ =>
           eexists _, [_; _; _; _], _; split; [done|]; split; [reflexivity|];
           split; forall_solve
       | |- _ => eexists _, _; split_solve
       end.
Qed.

(** C9.  In a run of [Revert] in which the removal of the backup file
    fails, [Revert] returns no error, the version marker is [8], written
    before the removal was tried, the backup file is still there with its
    content, and the failure is reported on the log. *)
Theorem mg8_Revert_remove_failure (opts : Options) (w : World8) :
  wp (mg8_Revert NewKey opts)
    (fun r w' =>
       EvRemoveBackup false ∈ step_events w w' ->
       r = None /\ version w' = "8" /\ backup w' = backup w /\ is_Some (backup w') /\
       (exists e, remove_failed_report e ∈ step_output w w') /\
       exists pre post,
         step_events w w' = (pre ++ EvWriteVersion (Path opts) "8" true :: post)%list /\
         EvRemoveBackup false ∈ post) w.
Proof.
  mstart w. mrun.
  all: norm_events; cbn [version backup].
  all: intros Hin; inv_elem Hin.
  all: split; [done|]; split; [done|]; split; [done|]; split; [by eauto|].
  all: split; [eexists; unfold remove_failed_report; elem_solve|].
  all: eexists _, _; split; [split_solve|elem_solve].
Qed.

(** What [Revert] does on a repo of version [9] with a backup file, when
    nothing but the datastore, the scanner and the removal of the backup file
    can fail: the inverse swaps of the well-formed lines delivered by the
    scanner run in order, every other delivered line is reported, and the
    step ends as the inverse swaps end. *)
Lemma mg8_Revert_reads_log (opts : Options) (w : World8) (content : string) :
  revert_ready w -> version w = "9" -> backup w = Some content ->
  wp (mg8_Revert NewKey opts)
    (fun r w' =>
       exists err st reverted,
         unswap_loop (map (record_of NewKey) (List.filter well_formed (scanned w content)))
           (blocks w) = (err, st, reverted) /\
         blocks w' = st /\ lock w' = Unlocked /\
         List.filter is_swap (step_events w w') = map unswap_event reverted /\
         (exists o1 o2,
            step_output w w' =
              (o1 ++ map bad_line_report
                       (List.filter (fun l => negb (well_formed l)) (scanned w content)) ++
               o2)%list /\
            (is_Some (scan_error_at w) -> Error "%s" [AErr ErrRead] ∈ o2)) /\
         (err = None ->
            r = None /\ version w' = "8" /\
            backup w' = (if faulty w SysRemoveBackup then backup w else None) /\
            reverted = map (record_of NewKey) (List.filter well_formed (scanned w content)) /\
            exists pre post,
              step_events w w' =
                (pre ++ EvSwapperDone true :: EvWriteVersion (Path opts) "8" true ::
                 EvCloseBackup true ::
                 EvRemoveBackup (negb (faulty w SysRemoveBackup)) :: post)%list) /\
         (forall e, err = Some e ->
            r = Some e /\ version w' = "9" /\ backup w' = backup w)) w.
Proof.
  intros (Hl & ? & ? & ? & ? & ?) Hv Hb. mstart w. cbn [lock faulty version backup] in *.
  subst. unfold scanned. cbn [scan_error_at]. mrun.
  all: try done.
  all: norm_events; cbn [version backup blocks lock].
  all: eexists _, _, _; split; [reflexivity|]; split; [done|]; split; [done|].
  all: split; [by filter_solve|].
  all: split;
    [eexists _, _; split; [seg_solve|];
     intros Hs; first [ by destruct Hs as [? [=]] | elem_solve ]|].
  all: split; [|intros ? [=]; by subst].
  all: intros [=].
  all: match goal with
       | H : unswap_loop _ _ = (None, _, _) |- _ => apply unswap_loop_done in H as ->
       end.
  all: do 4 (split; [done|]).
  all: eexists _, _; split_solve.
Qed.

(** C6.  On a healthy repo of version [9] whose backup file is read without
    error, [Revert] reports every line that does not split on the comma into
    exactly two fields, and runs the inverse swaps of all the other lines, in
    the order of the file, as if the bad lines were not there: the swaps made
    are those of the swapper on the records of the well-formed lines.  When
    none of these swaps fails, all of them were made, [Revert] returns no
    error and the version marker is [8]. *)
Theorem malformed_lines_are_skipped (opts : Options) (w : World8) (content : string) :
  healthy w -> version w = "9" -> backup w = Some content -> scan_error_at w = None ->
  wp (mg8_Revert NewKey opts)
    (fun r w' =>
       (forall line, line ∈ ScanLines content -> well_formed line = false ->
          bad_line_report line ∈ step_output w w') /\
       exists err st reverted,
         unswap_loop (map (record_of NewKey) (List.filter well_formed (ScanLines content)))
           (blocks w) = (err, st, reverted) /\
         blocks w' = st /\
         List.filter is_swap (step_events w w') = map unswap_event reverted /\
         (err = None ->
            r = None /\ version w' = "8" /\
            reverted = map (record_of NewKey) (List.filter well_formed (ScanLines content)))) w.
Proof.
  intros Hh Hv Hb Hs.
  eapply wp_mono;
    [apply mg8_Revert_reads_log; [by apply healthy_revert_ready|done..]|]. cbv beta.
  intros r w' (err & st & reverted & Hrun & Hbl & _ & Hev & (o1 & o2 & Hout & _) & Hok & _).
  unfold scanned in *. rewrite Hs in *. split.
  - intros line Hin Hwf. rewrite Hout. apply elem_of_app. right. apply elem_of_app. left.
    apply list_elem_of_fmap. exists line. split; [done|].
    apply elem_of_filter_bool. split; [done|]. by rewrite Hwf.
  - exists err, st, reverted. do 3 (split; [done|]).
    intros He. destruct (Hok He) as (? & ? & ? & ? & _). done.
Qed.


(** ** Revert after Apply *)


End Mg8Properties.

Section Mg1Properties.

Variable NewKey : string -> Key.

(** ** The 1-to-2 step *)

(** Neither [Apply] nor [Revert] of the 1-to-2 step takes or releases a
    lock. *)
Lemma mg1_no_lock_events (opts : Options) (w : World1) :
  wp (mg1_Apply NewKey opts)
     (fun _ w' => Forall (fun e => is_lock_event e = false) (step_events1 w w')) w /\
  wp (mg1_Revert NewKey opts)
     (fun _ w' => Forall (fun e => is_lock_event e = false) (step_events1 w w')) w.
Proof.
  split; mstart1 w; mrun; norm_events; forall_solve.
Qed.

(** When [Apply] of the 1-to-2 step returns an error without having tried
    to write the version file, the version marker of the repo is what it
    was.  The version file is written with [2], after the blocks were
    transferred and the repo directory was renamed. *)
Lemma mg1_Apply_commit_last (opts : Options) (w : World1) :
  wp (mg1_Apply NewKey opts)
    (fun r w' =>
       (r <> None ->
        Forall (fun e => is_write_version e = false) (step_events1 w w') ->
        version_at w' (Path opts) = version_at w (Path opts)) /\
       (forall p v ok, EvWriteVersion p v ok ∈ step_events1 w w' ->
          v = "2" /\
          exists pre post,
            step_events1 w w' = (pre ++ EvWriteVersion p v ok :: post)%list /\
            EvTransfer "/b/" "" true ∈ pre /\
            EvRename (Path opts) p true ∈ pre)) w.
Proof.
  mstart1 w. mrun. all: norm_events.
  all: split; [intros Hr Hnw|intros p v ok Hin; inv_elem Hin].
  all: try done.
  all: try (injection Hin as -> -> ->; split; [done|]; eexists _, _; split; [split_solve|];
            split; elem_solve).
  all: try (exfalso;
            repeat (apply Forall_cons in Hnw; destruct Hnw as [? Hnw]);
            match goal with Hx : is_write_version (EvWriteVersion _ _ _) = false |- _ =>
              discriminate Hx
            end).
  all: unfold version_at; cbn [fs].
  all: try by simplify_map_eq.
  all: assert (replace_first ".go-ipfs" ".ipfs" (Path opts) <> Path opts)
         by (intros E; rewrite E in *; congruence).
  all: by simplify_map_eq.
Qed.

End Mg1Properties.

(** ** Both steps *)

(** C4.  Whenever [Apply] of the 8-to-9 step returns an error (from the
    lock, the version check, the opening of the store or of the backup file,
    a swap, or the version write itself) the version marker is what it was
    before the step.  Its version file is written at most once, with [9],
    after the successful return of the swapper and right after the writer
    goroutine was awaited, and no swap follows.  Whenever [Apply] of the
    1-to-2 step returns an error without having tried the version write, the
    version marker of the repo is what it was; its version file is written
    with [2], after the transfer of the blocks and the renaming of the repo
    directory succeeded. *)
Theorem version_advances_last (NewKey : string -> Key) (newKeyOf : Key -> Key + error)
    (opts : Options) :
  (forall w : World8,
     wp (mg8_Apply newKeyOf opts)
       (fun r w' =>
          (r <> None -> version w' = version w) /\
          commit_after_transform "9" (step_events w w') /\
          forall p v ok, EvWriteVersion p v ok ∈ step_events w w' ->
            exists pre post,
              step_events w w' =
                (pre ++ EvWritingDone :: EvWriteVersion p v ok :: post)%list) w) /\
  (forall w : World1,
     wp (mg1_Apply NewKey opts)
       (fun r w' =>
          (r <> None ->
           Forall (fun e => is_write_version e = false) (step_events1 w w') ->
           version_at w' (Path opts) = version_at w (Path opts)) /\
          (forall p v ok, EvWriteVersion p v ok ∈ step_events1 w w' ->
             v = "2" /\
             exists pre post,
               step_events1 w w' = (pre ++ EvWriteVersion p v ok :: post)%list /\
               EvTransfer "/b/" "" true ∈ pre /\
               EvRename (Path opts) p true ∈ pre)) w).
Proof.
  split; intros w.
  - apply mg8_Apply_commit_last.
  - apply mg1_Apply_commit_last.
Qed.

(** C7, as amended.  Every run of [Apply] and of [Revert] of the 8-to-9 step
    starts by trying to take the repo lock.  When the lock is refused the
    step does nothing else and returns an error; otherwise the lock is taken
    first, before the version check and everything else, no other lock
    operation follows until the release, and the release is the last thing
    the step does, whatever it returns.  [Apply] and [Revert] of the 1-to-2
    step take and release no lock at all. *)
Theorem lock_discipline (NewKey : string -> Key) (newKeyOf : Key -> Key + error)
    (opts : Options) :
  (forall w r w', mg8_Apply newKeyOf opts w = (r, w') -> locked_throughout w r w') /\
  (forall w r w', mg8_Revert NewKey opts w = (r, w') -> locked_throughout w r w') /\
  (forall w r w', mg1_Apply NewKey opts w = (r, w') ->
     Forall (fun e => is_lock_event e = false) (step_events1 w w')) /\
  (forall w r w', mg1_Revert NewKey opts w = (r, w') ->
     Forall (fun e => is_lock_event e = false) (step_events1 w w')).
Proof.
  split; [intros w; apply mg8_Apply_locked|].
  split; [intros w; apply mg8_Revert_locked|].
  split; intros w r w' E.
  - by apply (wp_run _ _ _ (proj1 (mg1_no_lock_events NewKey opts w)) r w').
  - by apply (wp_run _ _ _ (proj2 (mg1_no_lock_events NewKey opts w)) r w').
Qed.

(** The five blocks of a version-1 repo move from [/b/] to the empty prefix,
    and the source ends empty. *)
Lemma transferBlocks_five_blocks :
  let '(err, from', to') :=
    transferBlocks clean_key (plain_store five_blocks) (plain_store ∅) "/b/" "" in
  err = None /\ entries from' = ∅ /\ size (entries to') = 5 /\
  forall K v, five_blocks !! K = Some v -> has_prefix "/b/" K = true ->
    entries to' !! clean_key ("" +:+ str_drop 3 K) = Some v /\ entries from' !! K = None.
Proof.
  destruct (transferBlocks clean_key (plain_store five_blocks) (plain_store ∅) "/b/" "")
    as [[err from'] to'] eqn:E.
  assert (err = None) as -> by (by vm_compute in E; injection E as <- _ _).
  split; [done|]. split; [by vm_compute in E; injection E as <- _|].
  split; [by vm_compute in E; injection E as _ <-|].
  intros K v HK Hp.
  eapply (transferBlocks_moves_every_key clean_key (plain_store five_blocks) (plain_store ∅)
            from' to' "/b/" ""); [| |exact E|exact HK|exact Hp].
  - vm_compute. repeat constructor.
  - apply (bool_decide_unpack _). vm_compute. exact I.
Defined.





(** C3, instance.  A second [Apply] on the migrated [one_block] repo is
    refused with the version mismatch, and so is [Revert] on the repo that
    was not migrated. *)
Lemma version_mismatch_already_migrated :
  (exists w',
     mg8_Apply sample_newKeyOf sample_opts (repo9 one_block_migrated one_block_log) =
       (Some (ErrVersionsDiffer "8" "9"), w') /\
     blocks w' = plain_store one_block_migrated /\ version w' = "9") /\
  (exists w',
     mg8_Revert clean_key sample_opts (repo8 one_block) =
       (Some (ErrVersionsDiffer "9" "8"), w') /\
     blocks w' = plain_store one_block /\ version w' = "8").
Proof.
  split.
  - destruct (mg8_Apply sample_newKeyOf sample_opts (repo9 one_block_migrated one_block_log))
      as [r w'] eqn:E.
    assert (Hv : version (repo9 one_block_migrated one_block_log) <> "8") by discriminate.
    pose proof (wp_run _ _ _
      (proj1 (version_mismatch_fails_fast clean_key sample_newKeyOf sample_opts _) Hv)
      _ _ E) as ((e & -> & He) & _ & Hb & Hver & _).
    rewrite (He eq_refl eq_refl). exists w'. repeat split; assumption.
  - destruct (mg8_Revert clean_key sample_opts (repo8 one_block)) as [r w'] eqn:E.
    assert (Hv : version (repo8 one_block) <> "9") by discriminate.
    pose proof (wp_run _ _ _
      (proj2 (version_mismatch_fails_fast clean_key sample_newKeyOf sample_opts _) Hv)
      _ _ E) as ((e & -> & He) & _ & Hb & Hver & _).
    rewrite (He eq_refl eq_refl). exists w'. repeat split; assumption.
Defined.

(** C4, instance.  [Apply] on a repo whose backup file cannot be opened
    returns the error and leaves the version marker at [8]. *)
Lemma version_kept_when_backup_cannot_open :
  exists w',
    mg8_Apply sample_newKeyOf sample_opts (with_faults (repo8 one_block) open_backup_fails) =
      (Some (ErrSys SysOpenBackup), w') /\
    version w' = "8".
Proof.
  destruct (mg8_Apply sample_newKeyOf sample_opts
              (with_faults (repo8 one_block) open_backup_fails)) as [r w'] eqn:E.
  assert (r = Some (ErrSys SysOpenBackup)) as ->
    by (apply (f_equal fst) in E; vm_compute in E; congruence).
  exists w'. split; [reflexivity|].
  pose proof (wp_run _ _ _
    (proj1 (version_advances_last clean_key sample_newKeyOf sample_opts) _) _ _ E)
    as (Hv & _).
  apply Hv. discriminate.
Defined.

(** C6, instance.  [Revert] on a backup file with a line that is no record
    in front of the record of [one_block]: the line is reported, the record
    is reverted, and [Revert] returns no error. *)
Lemma garbled_log_is_reverted :
  exists w',
    mg8_Revert clean_key sample_opts (repo9 one_block_migrated garbled_log) = (None, w') /\
    bad_line_report "garbage" ∈ step_output (repo9 one_block_migrated garbled_log) w' /\
    List.filter is_swap (step_events (repo9 one_block_migrated garbled_log) w') =
      [EvUnswap "/CIDv1-abc" "/mh-abc"] /\
    blocks w' = plain_store one_block /\ version w' = "8".
Proof.
  destruct (mg8_Revert clean_key sample_opts (repo9 one_block_migrated garbled_log))
    as [r w'] eqn:E.
  assert (Hh : healthy (repo9 one_block_migrated garbled_log)) by (split; reflexivity).
  pose proof (wp_run _ _ _
    (malformed_lines_are_skipped clean_key sample_opts _ garbled_log Hh eq_refl eq_refl eq_refl)
    _ _ E) as (Hbad & err & st & reverted & Hrun & Hbl & Hev & Hok).
  vm_compute in Hrun. injection Hrun as <- <- <-.
  destruct (Hok eq_refl) as (-> & Hv & _).
  exists w'. split; [reflexivity|]. split; [|split; [exact Hev|split; [|exact Hv]]].
  - apply Hbad; [|vm_compute; reflexivity].
    vm_compute. apply list_elem_of_here.
  - rewrite Hbl. vm_compute. reflexivity.
Defined.

(** C9, instance.  [Revert] on the migrated [one_block] repo, when the
    backup file cannot be removed: no error, version [8], and the backup
    file is still there. *)
Lemma remove_failure_is_not_an_error :
  exists w',
    mg8_Revert clean_key sample_opts
      (with_faults (repo9 one_block_migrated one_block_log) remove_fails) = (None, w') /\
    version w' = "8" /\ backup w' = Some one_block_log /\
    remove_failed_report (ErrSys SysRemoveBackup) ∈
      step_output (with_faults (repo9 one_block_migrated one_block_log) remove_fails) w'.
Proof.
  destruct (mg8_Revert clean_key sample_opts
              (with_faults (repo9 one_block_migrated one_block_log) remove_fails))
    as [r w'] eqn:E.
  pose proof (wp_run _ _ _
    (mg8_Revert_remove_failure clean_key sample_opts _) _ _ E) as H.
  cbv beta in H.
  assert (Hin : EvRemoveBackup false ∈
            step_events (with_faults (repo9 one_block_migrated one_block_log) remove_fails) w').
  { apply (f_equal snd) in E. cbn [snd] in E. rewrite <- E. vm_compute.
    elem_solve. }
  destruct (H Hin) as (-> & Hv & Hbk & _ & _ & _).
  exists w'. split; [reflexivity|]. split; [exact Hv|]. split; [exact Hbk|].
  apply (f_equal snd) in E. cbn [snd] in E. rewrite <- E. vm_compute.
  unfold remove_failed_report. elem_solve.
Defined.


(** C7, counterexample.  [Apply] of the 1-to-2 step on a repo of five
    blocks succeeds; it checks the version, and it takes no lock, neither
    before the check nor after. *)
Lemma mg1_Apply_checks_version_unlocked :
  exists w',
    mg1_Apply clean_key sample_opts1 (world1 five_blocks) = (None, w') /\
    EvCheckVersion "/home/u/.go-ipfs" "1" true ∈ step_events1 (world1 five_blocks) w' /\
    Forall (fun e => is_lock_event e = false) (step_events1 (world1 five_blocks) w').
Proof.
  eexists. split; [vm_compute; reflexivity|].
  split; [vm_compute; apply list_elem_of_here|].
  vm_compute. repeat constructor.
Qed.

(** C7, instance.  The run of [Apply] of the 8-to-9 step on [one_block]
    holds the lock from its first event to its last; on a repo locked by
    another process it is refused. *)
Lemma lock_discipline_one_block :
  (exists w',
     mg8_Apply sample_newKeyOf sample_opts (repo8 one_block) = (None, w') /\
     locked_throughout (repo8 one_block) None w') /\
  (exists w',
     mg8_Apply sample_newKeyOf sample_opts (with_lock (repo8 one_block) LockedByOther) =
       (Some ErrLocked, w') /\
     locked_throughout (with_lock (repo8 one_block) LockedByOther) (Some ErrLocked) w').
Proof.
  split.
  - destruct (mg8_Apply sample_newKeyOf sample_opts (repo8 one_block)) as [r w'] eqn:E.
    assert (r = None) as -> by (apply (f_equal fst) in E; vm_compute in E; congruence).
    exists w'. split; [reflexivity|].
    exact (proj1 (lock_discipline clean_key sample_newKeyOf sample_opts) _ _ _ E).
  - destruct (mg8_Apply sample_newKeyOf sample_opts (with_lock (repo8 one_block) LockedByOther))
      as [r w'] eqn:E.
    assert (r = Some ErrLocked) as ->
      by (apply (f_equal fst) in E; vm_compute in E; congruence).
    exists w'. split; [reflexivity|].
    exact (proj1 (lock_discipline clean_key sample_newKeyOf sample_opts) _ _ _ E).
Defined.

(** C8, instance.  In the run of [Revert] on the migrated [one_block] repo
    the version write follows the inverse swap and the return of the
    swapper, and the removal of the backup file follows the version write. *)
Lemma mg8_Revert_order_one_block :
  exists w',
    mg8_Revert clean_key sample_opts (repo9 one_block_migrated one_block_log) = (None, w') /\
    (exists pre post,
       step_events (repo9 one_block_migrated one_block_log) w' =
         (pre ++ [EvUnswap "/CIDv1-abc" "/mh-abc"] ++
          EvSwapperDone true :: EvWriteVersion "/home/u/.ipfs" "8" true :: post)%list /\
       Forall (fun e => is_swap e = false /\ is_write_version e = false /\
                        is_remove_backup e = false) pre) /\
    (exists pre post,
       step_events (repo9 one_block_migrated one_block_log) w' =
         (pre ++ EvWriteVersion "/home/u/.ipfs" "8" true :: EvCloseBackup true ::
          EvRemoveBackup true :: post)%list).
Proof.
  destruct (mg8_Revert clean_key sample_opts (repo9 one_block_migrated one_block_log))
    as [r w'] eqn:E.
  pose proof (wp_run _ _ _ (mg8_Revert_order clean_key sample_opts _) _ _ E) as [Hw Hr].
  assert (Hin : EvRemoveBackup true ∈
            step_events (repo9 one_block_migrated one_block_log) w').
  { apply (f_equal snd) in E. cbn [snd] in E. rewrite <- E. vm_compute. elem_solve. }
  destruct (Hr true Hin) as (-> & pre1 & post1 & Hev1).
  assert (Hin' : EvWriteVersion "/home/u/.ipfs" "8" true ∈
            step_events (repo9 one_block_migrated one_block_log) w').
  { rewrite Hev1. apply elem_of_app. right. apply list_elem_of_here. }
  destruct (Hw _ _ _ Hin') as (_ & content & pre & post & Hc & Hev & Hpre & _).
  injection Hc as <-.
  assert (Hm : map unswap_event
                 (map (record_of clean_key)
                    (List.filter well_formed
                       (scanned (repo9 one_block_migrated one_block_log) one_block_log))) =
               [EvUnswap "/CIDv1-abc" "/mh-abc"]) by (vm_compute; reflexivity).
  rewrite Hm in Hev.
  exists w'. split; [reflexivity|]. split.
  - exists pre, post. split; [exact Hev|exact Hpre].
  - exists pre1, post1. exact Hev1.
Defined.

(** * Further properties *)

(** ** Lists ending in a given list *)

Lemma tail_here {A} (suf : list A) : suf = ([] ++ suf)%list.
Proof. done. Qed.

Lemma tail_cons {A} (a : A) (l pre suf : list A) :
  l = (pre ++ suf)%list -> a :: l = ((a :: pre) ++ suf)%list.
Proof. by intros ->. Qed.

Lemma tail_app {A} (l1 l pre suf : list A) :
  l = (pre ++ suf)%list -> (l1 ++ l)%list = ((l1 ++ pre) ++ suf)%list.
Proof. intros ->. by rewrite app_assoc. Qed.

(** Solves [l = ?pre ++ suf] for a list [l] that ends in the list [suf]. *)
Ltac tail_solve :=
  repeat first [ exact (tail_here _) | eapply tail_cons | eapply tail_app ].

(** ** More on byte strings *)

Lemma split_length (sep : ascii) (s : string) :
  List.length (strings_Split sep s) = S (str_count sep s).
Proof.
  induction s as [|c s IH]; [done|]. simpl.
  destruct (decide (c = sep)); simpl; [by rewrite IH|].
  destruct (strings_Split sep s) as [|h t]; simpl in *; [done|]. done.
Qed.

Lemma str_count_app (c : ascii) (a b : string) :
  str_count c (a +:+ b) = (str_count c a + str_count c b)%nat.
Proof.
  induction a as [|x a IH]; [done|]. rewrite append_String. simpl. rewrite IH. lia.
Qed.

Lemma str_mem_count (c : ascii) (s : string) :
  str_mem c s = true -> (1 <= str_count c s)%nat.
Proof.
  induction s as [|x s IH]; [done|]. simpl.
  destruct (decide (x = c)); [lia|]. intros H. apply IH in H. lia.
Qed.

Lemma replace_first_absent (old new s : string) :
  str_contains old s = false -> replace_first old new s = s.
Proof.
  induction s as [|c s IH]; simpl.
  - destruct (has_prefix old EmptyString); [done|done].
  - intros H. apply orb_false_iff in H as [H1 H2].
    cbn [replace_first]. rewrite H1. by rewrite IH.
Qed.

Lemma str_drop_0 (s : string) : str_drop 0 s = s.
Proof. by destruct s. Qed.

Section Mg8Further.

Variable NewKey : string -> Key.
Variable newKeyOf : Key -> Key + error.

(** ** Error returns and cleanup of the 8-to-9 step *)

(** X1.  Whenever [Revert] returns an error the backup file is what it was.
    The version marker is what it was too, with one exception: when the
    error is the failure to close the backup file, the version file was
    written with [8] before. *)
Theorem mg8_Revert_error_outcome (opts : Options) (w : World8) :
  wp (mg8_Revert NewKey opts)
    (fun r w' =>
       forall e, r = Some e ->
         backup w' = backup w /\
         (version w' = version w \/
          (e = ErrSys SysCloseBackup /\ version w' = "8" /\
           EvWriteVersion (Path opts) "8" true ∈ step_events w w'))) w.
Proof.
  mstart w. mrun.
  all: norm_events; cbn [version backup].
  all: intros ? [=]; subst.
  all: split; [done|].
  all: first [ by left | right; split; [done|]; split; [done|]; elem_solve ].
Qed.

(** X2.  [Revert] on a repo of version [9] that has no backup file, when
    the lock is free and locking, opening the store and opening the file
    are not made to fail: the opening of the backup file fails because the
    file is not there, [Revert] reports and returns that error, closes the
    store and releases the lock, and blocks and version are untouched. *)
Theorem mg8_Revert_without_backup (opts : Options) (w : World8) :
  lock w = Unlocked -> faulty w SysLock = false -> version w = "9" ->
  faulty w SysOpenStore = false -> faulty w SysOpenBackup = false ->
  backup w = None ->
  wp (mg8_Revert NewKey opts)
    (fun r w' =>
       r = Some (ErrNotExist (filepath_Join (Path opts) backupFile)) /\
       step_events w w' =
         [EvLock true; EvCheckVersion (Path opts) "9" true; EvOpenStore true;
          EvOpenBackup false; EvCloseStore; EvUnlock] /\
       Error "%s" [AErr (ErrNotExist (filepath_Join (Path opts) backupFile))] ∈
         step_output w w' /\
       blocks w' = blocks w /\ version w' = "9" /\ backup w' = None /\
       lock w' = Unlocked) w.
Proof.
  intros Hl Hf Hv Ho Hb Hbk. mstart w. cbn [lock faulty version backup] in *. subst.
  mrun. all: try done.
  all: norm_events; cbn [version backup blocks lock].
  all: split; [done|]; split; [done|]; split; [elem_solve|done].
Qed.

(** X3.  In every run of [Revert] that opened the store, the store is
    closed once, and the last two things the run does are closing the store
    and releasing the lock.  The backup file is closed only right after the
    version file was written with [8]: a run that ends before leaves the
    file it opened unclosed. *)
Theorem mg8_Revert_cleanup (opts : Options) (w : World8) :
  wp (mg8_Revert NewKey opts)
    (fun r w' =>
       (EvOpenStore true ∈ step_events w w' ->
        exists pre, step_events w w' = (pre ++ [EvCloseStore; EvUnlock])%list /\
                    Forall (fun e => is_close_store e = false) pre) /\
       (forall c, EvCloseBackup c ∈ step_events w w' ->
          exists pre post,
            step_events w w' =
              (pre ++ EvWriteVersion (Path opts) "8" true :: EvCloseBackup c :: post)%list)) w.
Proof.
  mstart w. mrun.
  all: norm_events.
  all: split; [intros Hin|intros c Hin]; inv_elem Hin.
  all: try (injection Hin as <-).
  all: try (eexists _, _; split_solve).
  all: eexists; split; [tail_solve|forall_solve].
Qed.


(** X5.  [Apply] only ever appends to the backup file.  In a run that opened
    the file, the file holds afterwards what it held before (nothing, when
    it was not there) followed by what the run added, and the warning about
    an existing backup file is on the log exactly when the file was there
    before.  In a run that did not open it the file is as it was, and it is
    not created. *)
Theorem mg8_Apply_only_appends (opts : Options) (w : World8) :
  wp (mg8_Apply newKeyOf opts)
    (fun r w' =>
       (EvOpenBackup true ∈ step_events w w' ->
        (exists added, backup w' = Some (default EmptyString (backup w) +:+ added)) /\
        (is_Some (backup w) <-> backup_exists_warning opts ∈ step_output w w')) /\
       (EvOpenBackup true ∉ step_events w w' -> backup w' = backup w)) w.
Proof.
  mstart w. mrun.
  all: norm_events; cbn [backup].
  all: split; [intros Hin; inv_elem Hin|intros Hnin].
  all: try done.
  all: try (exfalso; apply Hnin; elem_solve; fail).
  all: split;
    [ match goal with
      | H : _ = _ +:+ _ |- _ => rewrite H; cbn [default]; by eexists
      end
    | unfold backup_exists_warning, vlog_lines; split;
      [ intros Hs; first [ by destruct Hs as [? [=]] | elem_solve ]
      | intros Hw; first [ by eexists | exfalso; destruct (Verbose opts); inv_elem Hw ] ] ].
Qed.

(** ** The format of the backup file *)


(** X7.  A swap with a comma in one of its keys (and no line feed or
    carriage return) is logged by [Apply] as a line that the scanner of
    [Revert] rejects: the line splits into more than two fields, so the
    scanner reports a bad line and delivers no record for it. *)
Theorem comma_key_is_not_read_back (sw : Swap) (w : World8) :
  str_mem comma (Old sw) || str_mem comma (New sw) = true ->
  str_mem LF (Old sw) = false -> str_mem LF (New sw) = false ->
  str_mem CR (Old sw) = false -> str_mem CR (New sw) = false ->
  scan_error_at w = None ->
  exists w',
    scanner_goroutine NewKey (backup_line sw) w = ([], w') /\
    step_output w w' = [bad_line_report (record_text sw)].
Proof.
  intros Hc Hlo Hln Hro Hrn Hs.
  assert (Hlines : ScanLines (backup_line sw) = [record_text sw]).
  { unfold ScanLines. rewrite <- (string_app_nil_r (backup_line sw)), backup_line_text.
    rewrite scan_lines_from_line.
    - rewrite append_Empty. simpl. f_equal. apply dropCR_no_CR.
      unfold record_text. rewrite str_mem_app. simpl. by rewrite Hro, Hrn.
    - unfold record_text. rewrite str_mem_app. simpl. by rewrite Hlo, Hln. }
  assert (Hwf : well_formed (record_text sw) = false).
  { unfold well_formed. apply bool_decide_eq_false. rewrite split_length.
    unfold record_text. rewrite str_count_app. simpl. try rewrite decide_True by done.
    apply orb_true_iff in Hc as [Hc|Hc]; apply str_mem_count in Hc; lia. }
  unfold scanner_goroutine, mbind, M_bind, get_world. rewrite Hs.
  rewrite scan_records_spec, Hlines. cbn [List.filter]. rewrite Hwf. cbn [negb map].
  eexists. split; [reflexivity|].
  unfold step_output. cbn [output]. by rewrite drop_app_length.
Qed.

End Mg8Further.

Section Mg1Further.

Variable NewKey : string -> Key.

(** ** The checks of the 1-to-2 step *)

(** X8.  [sanityChecks] probes the new path by making and removing a
    directory there.  When it returns no error the new path is free and the
    file system is as it was; when something is at the new path it returns
    an error and changes nothing; the only run that changes the file system
    is the one in which the removal of the probe directory fails, which
    leaves the empty directory behind. *)
Theorem sanityChecks_probe (opts : Options) (w : World1) :
  wp (sanityChecks opts)
    (fun r w' =>
       let npath := replace_first ".go-ipfs" ".ipfs" (Path opts) in
       (r = None -> fs w !! npath = None /\ fs w' = fs w) /\
       (is_Some (fs w !! npath) -> r <> None /\ fs w' = fs w) /\
       (fs w' <> fs w ->
        r = Some (ErrSys (SysRemove npath)) /\ fs w' = <[npath := EmptyDir]> (fs w))) w.
Proof.
  mstart1 w. mrun. all: cbn [fs]; cbv zeta.
  all: try (exfalso; simplify_map_eq; fail).
  all: split; [intros [=]|split; [intros [? [=]]|intros Hne]].
  all: try (split; [done|reflexivity]).
  all: try (exfalso; by apply Hne).
  all: try (split; [reflexivity|reflexivity]).
  all: try (split; [reflexivity|by apply delete_insert_id]).
  all: exfalso; apply Hne; by apply delete_insert_id.
Qed.

(** X9.  [Apply] of the 1-to-2 step on a repo whose path does not hold
    [.go-ipfs] always returns an error and leaves the file system as it
    was: the new path is the path itself, so that for a repo of version [1]
    the probe of [sanityChecks] finds the repo directory in its way. *)
Theorem mg1_Apply_needs_go_ipfs (opts : Options) (w : World1) :
  str_contains ".go-ipfs" (Path opts) = false ->
  wp (mg1_Apply NewKey opts)
    (fun r w' =>
       r <> None /\ fs w' = fs w /\
       (forall repo, fs w !! Path opts = Some (RepoDir repo) -> r_version repo = "1" ->
          faulty1 w (SysMkdir (Path opts)) = false -> r = Some (ErrExist (Path opts)))) w.
Proof.
  intros Hc. mstart1 w. unfold mg1_Apply, sanityChecks.
  rewrite (replace_first_absent _ _ _ Hc). mrun. all: cbn [fs faulty1] in *.
  all: try (exfalso; simplify_map_eq; fail).
  all: try (split; [done|]; split; [reflexivity|]; intros repo [= <-] Hv Hf; congruence).
Qed.

(** ** transferBlocks on every path *)

(** Whatever its result, the loop of [transferBlocks] deletes only listed
    keys from the source and writes only their targets to the destination;
    it changes no fault the environment injects. *)
Lemma transferBlocks_loop_frame (fpref tpref : string) (ks : list string) :
  forall from to r from' to',
    Forall (fun K => NewKey K = K) ks ->
    transferBlocks_loop NewKey ks from to fpref tpref = (r, from', to') ->
    (forall K, K ∉ ks -> entries from' !! K = entries from !! K) /\
    (forall j, j ∉ map (target_key NewKey fpref tpref) ks ->
       entries to' !! j = entries to !! j) /\
    (get_faults from' = get_faults from /\ put_faults from' = put_faults from /\
     delete_faults from' = delete_faults from /\ query_fault from' = query_fault from) /\
    (get_faults to' = get_faults to /\ put_faults to' = put_faults to /\
     delete_faults to' = delete_faults to /\ query_fault to' = query_fault to).
Proof.
  induction ks as [|k ks IH]; intros from to r from' to' Hcan Hrun.
  - simpl in Hrun. injection Hrun as <- <- <-. done.
  - apply Forall_cons in Hcan as [Hck Hcan].
    simpl in Hrun. rewrite Hck in Hrun.
    fold (target_key NewKey fpref tpref k) in Hrun.
    destruct (ds_Get from k) as [v|e]; [|by injection Hrun as <- <- <-].
    unfold ds_Put in Hrun. case_decide; [by injection Hrun as <- <- <-|].
    unfold ds_Delete in Hrun. case_decide.
    { injection Hrun as <- <- <-. split; [done|]. split; [|done].
      intros j Hj. simpl in Hj. apply not_elem_of_cons in Hj as [Hne _].
      cbn. by rewrite lookup_insert_ne. }
    apply IH in Hrun as (Hf & Ht & Hff & Htf); [|done].
    cbn in *. split; [|split; [|done]].
    + intros K HK. apply not_elem_of_cons in HK as [Hne HK].
      rewrite Hf by done. by rewrite lookup_delete_ne.
    + intros j Hj. apply not_elem_of_cons in Hj as [Hne Hj].
      rewrite Ht by done. by rewrite lookup_insert_ne.
Qed.

Lemma transferBlocks_loop_keeps (fpref tpref : string) (ks : list string) :
  forall from to r from' to',
    NoDup ks ->
    Forall (fun K => NewKey K = K) ks ->
    NoDup (map (target_key NewKey fpref tpref) ks) ->
    transferBlocks_loop NewKey ks from to fpref tpref = (r, from', to') ->
    forall K v, K ∈ ks -> entries from !! K = Some v ->
      entries from' !! K = Some v \/
      (entries from' !! K = None /\
       entries to' !! target_key NewKey fpref tpref K = Some v).
Proof.
  induction ks as [|k ks IH]; intros from to r from' to' Hnd Hcan Htgt Hrun K v HK Hv.
  - by apply elem_of_nil in HK.
  - apply NoDup_cons in Hnd as [Hk Hnd].
    apply Forall_cons in Hcan as [Hck Hcan].
    simpl in Htgt. apply NoDup_cons in Htgt as [Htk Htgt].
    simpl in Hrun. rewrite Hck in Hrun.
    fold (target_key NewKey fpref tpref k) in Hrun.
    destruct (ds_Get from k) as [v0|e] eqn:Hget; [|injection Hrun as <- <- <-; by left].
    unfold ds_Put in Hrun. case_decide; [injection Hrun as <- <- <-; by left|].
    unfold ds_Delete in Hrun. case_decide; [injection Hrun as <- <- <-; by left|].
    cbn in Hrun.
    apply elem_of_cons in HK as [->|HK].
    + right. apply transferBlocks_loop_frame in Hrun as (Hf & Ht & _); [|done].
      rewrite Hf, Ht by done. cbn. rewrite lookup_delete_eq, lookup_insert_eq.
      split; [done|]. unfold ds_Get in Hget. case_decide; [done|].
      rewrite Hv in Hget. by injection Hget as <-.
    + eapply IH; try done. cbn. rewrite lookup_delete_ne; [done|]. intros ->. done.
Qed.

(** With nothing failing, the loop returns no error. *)
Lemma transferBlocks_loop_runs (fpref tpref : string) (ks : list string) :
  forall from to,
    NoDup ks ->
    Forall (fun K => NewKey K = K) ks ->
    (forall K, K ∈ ks -> is_Some (entries from !! K)) ->
    get_faults from = ∅ -> delete_faults from = ∅ -> put_faults to = ∅ ->
    exists from' to', transferBlocks_loop NewKey ks from to fpref tpref = (None, from', to').
Proof.
  induction ks as [|k ks IH]; intros from to Hnd Hcan Hpres Hg Hd Hp.
  - by eexists _, _.
  - apply NoDup_cons in Hnd as [Hk Hnd].
    apply Forall_cons in Hcan as [Hck Hcan].
    destruct (Hpres k (list_elem_of_here _ _)) as [v Hv].
    simpl. rewrite Hck. unfold ds_Get. rewrite Hg, decide_False by set_solver. rewrite Hv.
    unfold ds_Put. rewrite Hp, decide_False by set_solver.
    unfold ds_Delete. rewrite Hd, decide_False by set_solver.
    apply IH; try done.
    intros K HK. cbn. rewrite lookup_delete_ne by (intros ->; done).
    apply Hpres. by apply list_elem_of_further.
Qed.

(** X10.  Every run of [transferBlocks], whether it returns an error or
    not, keeps every value of the source: afterwards the value is still in
    the source under its key, or the key starts with the prefix, is gone
    from the source, and the destination holds the value under the
    rewritten key.  The keys of the source that start with the prefix are in
    the normal form of the datastore, and are rewritten to distinct keys. *)
Theorem transferBlocks_loses_nothing
    (from to from' to' : Datastore) (fpref tpref : string) (r : option error) :
  Forall (fun K => NewKey K = K) (List.filter (has_prefix fpref) (ds_keys from)) ->
  NoDup (map (target_key NewKey fpref tpref) (List.filter (has_prefix fpref) (ds_keys from))) ->
  transferBlocks NewKey from to fpref tpref = (r, from', to') ->
  forall K v, entries from !! K = Some v ->
    entries from' !! K = Some v \/
    (has_prefix fpref K = true /\ entries from' !! K = None /\
     entries to' !! target_key NewKey fpref tpref K = Some v).
Proof.
  intros Hcan Htgt Hrun K v Hv.
  unfold transferBlocks, ds_Query in Hrun.
  destruct (query_fault from); [injection Hrun as <- <- <-; by left|].
  destruct (has_prefix fpref K) eqn:Hp.
  - eapply transferBlocks_loop_keeps in Hrun as [?|[? ?]]; eauto.
    + by apply NoDup_filter_bool, ds_keys_NoDup.
    + apply elem_of_filter_bool. split; [|done]. apply elem_of_ds_keys. by exists v.
  - left. apply transferBlocks_loop_frame in Hrun as (Hf & _); [|done].
    rewrite Hf; [done|]. intros [_ Hin]%elem_of_filter_bool. congruence.
Qed.

(** X11.  Every run of [transferBlocks], whether it returns an error or
    not, leaves alone the keys of the source that do not start with the
    prefix, and the keys of the destination to which no key of the source
    under the prefix is rewritten. *)
Theorem transferBlocks_touches_only_the_prefix
    (from to from' to' : Datastore) (fpref tpref : string) (r : option error) :
  Forall (fun K => NewKey K = K) (List.filter (has_prefix fpref) (ds_keys from)) ->
  transferBlocks NewKey from to fpref tpref = (r, from', to') ->
  (forall K, has_prefix fpref K = false -> entries from' !! K = entries from !! K) /\
  (forall j,
     (forall K, is_Some (entries from !! K) -> has_prefix fpref K = true ->
        target_key NewKey fpref tpref K <> j) ->
     entries to' !! j = entries to !! j).
Proof.
  intros Hcan Hrun.
  unfold transferBlocks, ds_Query in Hrun.
  destruct (query_fault from); [by injection Hrun as <- <- <-|].
  apply transferBlocks_loop_frame in Hrun as (Hf & Ht & _); [|done].
  split.
  - intros K Hp. apply Hf. intros [_ Hin]%elem_of_filter_bool. congruence.
  - intros j Hj. apply Ht. intros (K & -> & HK)%list_elem_of_fmap.
    apply elem_of_filter_bool in HK as [HK Hp]. apply elem_of_ds_keys in HK.
    by apply (Hj K).
Qed.

(** ** What the 1-to-2 step does *)

Lemma mg1_Apply_success_shape (opts : Options) (w : World1) :
  wp (mg1_Apply NewKey opts)
    (fun r w' =>
       r = None ->
       let npath := replace_first ".go-ipfs" ".ipfs" (Path opts) in
       exists repo ldb' fds',
         fs w !! Path opts = Some (RepoDir repo) /\ r_version repo = "1" /\
         npath <> Path opts /\ fs w !! npath = None /\
         transferBlocks NewKey (r_ldb repo) (flatfs_of repo) "/b/" "" = (None, ldb', fds') /\
         fs w' = <[npath := RepoDir {| r_version := "2"; r_ldb := ldb';
                                       r_blocks := Some fds' |}]>
                   (delete (Path opts) (fs w)) /\
         faulty1 w' = faulty1 w) w.
Proof.
  mstart1 w. mrun. all: cbn [fs faulty1]; cbv zeta.
  all: try (intros [=]; fail).
  all: try (exfalso; simplify_map_eq; fail).
  all: intros _.
  all: try (exfalso; match goal with H : ?p = replace_first _ _ ?p |- _ => rewrite <- H in * end;
            congruence).
  all: rewrite delete_insert_id in * by assumption.
  all: simplify_map_eq.
  exists r, d, d0. split; [done|]. split; [done|]. split; [done|]. split; [done|].
  split; [exact Heqp|]. split; [|done].
  apply map_eq. intros i.
  destruct (decide (i = replace_first ".go-ipfs" ".ipfs" (Path opts))) as [->|?];
    [by simplify_map_eq|].
  destruct (decide (i = Path opts)) as [->|?]; by simplify_map_eq.
Qed.

Lemma mg1_Revert_success_shape (opts : Options) (w : World1) :
  wp (mg1_Revert NewKey opts)
    (fun r w' =>
       r = None ->
       let npath := replace_first ".ipfs" ".go-ipfs" (Path opts) in
       exists repo fds fds' ldb',
         fs w !! Path opts = Some (RepoDir repo) /\ r_version repo = "2" /\
         r_blocks repo = Some fds /\
         (npath = Path opts \/ fs w !! npath = None \/ fs w !! npath = Some EmptyDir) /\
         transferBlocks NewKey fds (r_ldb repo) "" "/b/" = (None, fds', ldb') /\
         fs w' = <[npath := RepoDir {| r_version := "1"; r_ldb := ldb';
                                       r_blocks := None |}]>
                   (delete (Path opts) (fs w))) w.
Proof.
  mstart1 w. mrun. all: cbn [fs]; cbv zeta.
  all: try (intros [=]; fail).
  all: try (exfalso; simplify_map_eq; fail).
  all: intros _.
  all: simplify_map_eq.
  all: try (match goal with H : ?p = replace_first _ _ ?p |- _ => rewrite <- H in * end;
            simplify_map_eq).
  all: eexists _, _, _, _; split; [reflexivity|]; split; [done|]; split; [eassumption|].
  all: split; [by eauto|]; split; [eassumption|].
  all: apply map_eq; intros i.
  all: try (destruct (decide (i = replace_first ".ipfs" ".go-ipfs" (Path opts))) as [->|?];
            [by simplify_map_eq|]).
  all: destruct (decide (i = Path opts)) as [->|?]; by simplify_map_eq.
Qed.

(** With nothing in its way, [Revert] returns no error. *)
Lemma mg1_Revert_runs (opts : Options) (w : World1) (repo : Repo1)
    (fds fds' ldb' : Datastore) :
  let npath := replace_first ".ipfs" ".go-ipfs" (Path opts) in
  fs w !! Path opts = Some (RepoDir repo) -> r_version repo = "2" ->
  r_blocks repo = Some fds ->
  fs w !! npath = None ->
  (forall c, faulty1 w c = false) ->
  transferBlocks NewKey fds (r_ldb repo) "" "/b/" = (None, fds', ldb') ->
  wp (mg1_Revert NewKey opts) (fun r _ => r = None) w.
Proof.
  intros npath Hrepo Hver Hbl Hfree Hnf Hrun. subst npath.
  mstart1 w. cbn [fs faulty1] in *. mrun.
  all: try done.
  all: try congruence.
  all: simplify_map_eq.
  all: try congruence.
Qed.

(** X12.  When [Apply] of the 1-to-2 step returns no error, there was a repo
    of version [1] at the path, the new path differs from it and was free,
    the transfer of the blocks under [/b/] from leveldb to flatfs returned
    no error, and afterwards the old path is gone and the new path holds
    the repo with version [2], the leveldb and the flatfs the transfer
    left; nothing else in the file system changed. *)
Theorem mg1_Apply_success (opts : Options) (w : World1) :
  wp (mg1_Apply NewKey opts)
    (fun r w' =>
       r = None ->
       let npath := replace_first ".go-ipfs" ".ipfs" (Path opts) in
       exists repo ldb' fds',
         fs w !! Path opts = Some (RepoDir repo) /\ r_version repo = "1" /\
         npath <> Path opts /\ fs w !! npath = None /\
         transferBlocks NewKey (r_ldb repo) (flatfs_of repo) "/b/" "" = (None, ldb', fds') /\
         fs w' = <[npath := RepoDir {| r_version := "2"; r_ldb := ldb';
                                       r_blocks := Some fds' |}]>
                   (delete (Path opts) (fs w)) /\
         faulty1 w' = faulty1 w) w.
Proof. apply mg1_Apply_success_shape. Qed.

(** X13.  When [Revert] of the 1-to-2 step returns no error, there was a
    repo of version [2] with a blocks directory at the path, the path with
    [.ipfs] replaced by [.go-ipfs] is the path itself, or was free or an
    empty directory, the transfer of all blocks from flatfs to leveldb
    under [/b/] returned no error, and afterwards that path holds the repo
    with version [1], the leveldb the transfer left and no blocks
    directory; nothing else in the file system changed. *)
Theorem mg1_Revert_success (opts : Options) (w : World1) :
  wp (mg1_Revert NewKey opts)
    (fun r w' =>
       r = None ->
       let npath := replace_first ".ipfs" ".go-ipfs" (Path opts) in
       exists repo fds fds' ldb',
         fs w !! Path opts = Some (RepoDir repo) /\ r_version repo = "2" /\
         r_blocks repo = Some fds /\
         (npath = Path opts \/ fs w !! npath = None \/ fs w !! npath = Some EmptyDir) /\
         transferBlocks NewKey fds (r_ldb repo) "" "/b/" = (None, fds', ldb') /\
         fs w' = <[npath := RepoDir {| r_version := "1"; r_ldb := ldb';
                                       r_blocks := None |}]>
                   (delete (Path opts) (fs w))) w.
Proof. apply mg1_Revert_success_shape. Qed.

(** ** Revert after Apply of the 1-to-2 step *)

Lemma target_to_flat (K : string) : target_key NewKey "/b/" "" K = flat_key NewKey K.
Proof. reflexivity. Qed.

Lemma target_to_ldb (k : string) : target_key NewKey "" "/b/" k = ldb_key NewKey k.
Proof. unfold target_key, ldb_key. cbn [String.length]. by rewrite str_drop_0. Qed.

(** A transfer to an empty flatfs and the transfer back restore leveldb
    and leave flatfs empty. *)
Lemma transfer_there_and_back (ldb ldb' fds' : Datastore) :
  fault_free ldb ->
  keys_round_trip NewKey ldb ->
  transferBlocks NewKey ldb (plain_store ∅) "/b/" "" = (None, ldb', fds') ->
  transferBlocks NewKey fds' ldb' "" "/b/" = (None, plain_store ∅, ldb).
Proof.
  intros (Hg & Hp & Hd & Hq) Hkeys Hrun.
  set (ks := List.filter (has_prefix "/b/") (ds_keys ldb)) in *.
  assert (Hnd : NoDup ks) by apply NoDup_filter_bool, ds_keys_NoDup.
  assert (Hcan : Forall (fun K => NewKey K = K) ks).
  { eapply Forall_impl; [exact Hkeys|]. by intros K (? & _). }
  assert (Hinj : NoDup (map (target_key NewKey "/b/" "") ks)).
  { apply NoDup_fmap_2_strong; [|done].
    intros x y Hx Hy Hxy. rewrite !target_to_flat in Hxy.
    unfold keys_round_trip in Hkeys. rewrite Forall_forall in Hkeys.
    destruct (Hkeys x Hx) as (_ & _ & <-). destruct (Hkeys y Hy) as (_ & _ & <-).
    by rewrite Hxy. }
  unfold transferBlocks, ds_Query in Hrun. rewrite Hq in Hrun. fold ks in Hrun.
  pose proof (transferBlocks_loop_frame _ _ _ _ _ _ _ _ Hcan Hrun)
    as (_ & _ & (Hg1 & Hp1 & Hd1 & Hq1) & (Hg2 & Hp2 & Hd2 & Hq2)).
  pose proof (transferBlocks_loop_ok NewKey _ _ _ _ _ _ _ Hnd Hcan Hinj Hrun)
    as (Hin & Hout & Hto).
  cbn in Hg2, Hp2, Hd2, Hq2.
  assert (Hkeys' : forall k', k' ∈ ds_keys fds' ->
                     exists K, K ∈ ks /\ k' = flat_key NewKey K).
  { intros k' Hk'. apply elem_of_ds_keys in Hk' as [v Hv].
    destruct (decide (k' ∈ map (target_key NewKey "/b/" "") ks)) as [Hi|Hn].
    - apply list_elem_of_fmap in Hi as (K & -> & HK). by exists K.
    - rewrite Hto in Hv by done. cbn in Hv. by rewrite lookup_empty in Hv. }
  set (ks' := ds_keys fds').
  assert (Hnd' : NoDup ks') by apply ds_keys_NoDup.
  assert (Hcan' : Forall (fun k => NewKey k = k) ks').
  { apply Forall_forall. intros k' Hk'. apply Hkeys' in Hk' as (K & HK & ->).
    unfold keys_round_trip in Hkeys. rewrite Forall_forall in Hkeys.
    by destruct (Hkeys K HK) as (_ & ? & _). }
  assert (Hback : forall k', k' ∈ ks' -> ldb_key NewKey k' ∈ ks /\
                    flat_key NewKey (ldb_key NewKey k') = k').
  { intros k' Hk'. apply Hkeys' in Hk' as (K & HK & ->).
    unfold keys_round_trip in Hkeys. rewrite Forall_forall in Hkeys.
    destruct (Hkeys K HK) as (_ & _ & ->). done. }
  assert (Hinj' : NoDup (map (target_key NewKey "" "/b/") ks')).
  { apply NoDup_fmap_2_strong; [|done].
    intros x y Hx Hy Hxy. rewrite !target_to_ldb in Hxy.
    destruct (Hback x Hx) as (_ & <-). destruct (Hback y Hy) as (_ & <-).
    by rewrite Hxy. }
  unfold transferBlocks, ds_Query. rewrite Hq2. rewrite filter_has_prefix_empty. fold ks'.
  destruct (transferBlocks_loop_runs "" "/b/" ks' fds' ldb') as (fds'' & ldb'' & Hrun');
    try done; try congruence.
  { intros K HK. by apply elem_of_ds_keys. }
  rewrite Hrun'.
  pose proof (transferBlocks_loop_frame _ _ _ _ _ _ _ _ Hcan' Hrun')
    as (_ & _ & (Hg3 & Hp3 & Hd3 & Hq3) & (Hg4 & Hp4 & Hd4 & Hq4)).
  pose proof (transferBlocks_loop_ok NewKey _ _ _ _ _ _ _ Hnd' Hcan' Hinj' Hrun')
    as (Hin' & Hout' & Hto').
  f_equal; [f_equal|].
  - apply datastore_eq; cbn; try congruence.
    apply map_eq. intros k. rewrite lookup_empty.
    destruct (decide (k ∈ ks')) as [Hk|Hk].
    + by destruct (Hin' k Hk) as (v & _ & _ & ?).
    + rewrite Hout' by done. apply eq_None_not_Some. intros Hs.
      apply Hk. by apply elem_of_ds_keys.
  - apply datastore_eq; try congruence.
    apply map_eq. intros j.
    destruct (decide (j ∈ ks)) as [Hj|Hj].
    + destruct (Hin j Hj) as (v & Hv & Hflat & _).
      rewrite target_to_flat in Hflat.
      assert (Hfk : flat_key NewKey j ∈ ks') by (apply elem_of_ds_keys; by exists v).
      destruct (Hin' _ Hfk) as (v' & Hv' & Hl & _).
      rewrite target_to_ldb in Hl.
      unfold keys_round_trip in Hkeys. rewrite Forall_forall in Hkeys.
      destruct (Hkeys j Hj) as (_ & _ & Hjj). rewrite Hjj in Hl. congruence.
    + rewrite Hto'.
      * by apply Hout.
      * intros (k' & -> & Hk')%list_elem_of_fmap. rewrite target_to_ldb in Hj.
        by destruct (Hback k' Hk').
Qed.

(** X14.  Let [Apply] of the 1-to-2 step return no error on a repo that has
    no blocks directory, in an environment that injects no fault, with a
    leveldb that fails on no operation and whose keys under [/b/] survive
    the way to flatfs and back.  Let the new path lead back to the path
    when [.ipfs] is replaced by [.go-ipfs] in it.  Then [Revert], called on
    the new path, returns no error and the file system is what it was
    before [Apply]: the repo is back at its path with version [1], its
    leveldb as it was, and without a blocks directory. *)
Theorem mg1_Revert_after_Apply (opts : Options) (w w1 : World1) (repo : Repo1) :
  let npath := replace_first ".go-ipfs" ".ipfs" (Path opts) in
  fs w !! Path opts = Some (RepoDir repo) ->
  r_blocks repo = None ->
  fault_free (r_ldb repo) ->
  keys_round_trip NewKey (r_ldb repo) ->
  (forall c, faulty1 w c = false) ->
  replace_first ".ipfs" ".go-ipfs" npath = Path opts ->
  mg1_Apply NewKey opts w = (None, w1) ->
  exists w2,
    mg1_Revert NewKey {| Path := npath; Verbose := Verbose opts |} w1 = (None, w2) /\
    fs w2 = fs w.
Proof.
  intros npath Hrepo Hbl Hff Hkeys Hnf Hback Happly.
  destruct (wp_run _ _ _ (mg1_Apply_success_shape opts w) _ _ Happly eq_refl)
    as (repo' & ldb' & fds' & Hrepo' & Hver & Hne & Hfree & Hrun & Hfs1 & Hfa1).
  fold npath in Hne, Hfree, Hfs1.
  rewrite Hrepo in Hrepo'. injection Hrepo' as <-.
  unfold flatfs_of in Hrun. rewrite Hbl in Hrun. cbn [default] in Hrun.
  pose proof (transfer_there_and_back _ _ _ Hff Hkeys Hrun) as Hrun2.
  set (opts' := {| Path := npath; Verbose := Verbose opts |}).
  destruct (mg1_Revert NewKey opts' w1) as [r w2] eqn:Erev.
  assert (Hr : r = None).
  { refine (wp_run _ _ _ (mg1_Revert_runs opts' w1 _ fds' _ _ _ _ _ _ _ _) _ _ Erev).
    - cbn [Path opts']. rewrite Hfs1. apply lookup_insert_eq.
    - reflexivity.
    - reflexivity.
    - cbn [Path opts']. rewrite Hback, Hfs1.
      rewrite lookup_insert_ne by done. apply lookup_delete_eq.
    - intros c. rewrite Hfa1. apply Hnf.
    - exact Hrun2. }
  subst r. exists w2. split; [reflexivity|].
  destruct (wp_run _ _ _ (mg1_Revert_success_shape opts' w1) _ _ Erev eq_refl)
    as (repo2 & fds2 & fds2' & ldb2' & Hrepo2 & _ & Hbl2 & _ & Hrun2' & Hfs2).
  cbn [Path opts'] in *. rewrite Hback in Hfs2.
  rewrite Hfs1, lookup_insert_eq in Hrepo2. injection Hrepo2 as <-.
  cbn in Hbl2, Hrun2'. injection Hbl2 as <-.
  rewrite Hrun2 in Hrun2'. injection Hrun2' as <- <-.
  rewrite Hfs2, Hfs1. apply map_eq. intros i.
  destruct (decide (i = Path opts)) as [->|?].
  - rewrite lookup_insert_eq, Hrepo. destruct repo; cbn in *. by subst.
  - rewrite lookup_insert_ne by done.
    destruct (decide (i = npath)) as [->|?].
    + by rewrite lookup_delete_eq.
    + rewrite lookup_delete_ne, lookup_insert_ne, lookup_delete_ne by done. done.
Qed.

(** X15.  [Apply] of the 1-to-2 step rolls nothing back.  When it returns
    an error after the transfer of the blocks succeeded (the renaming or the
    version write failed), the repo, at its old or at its new path, still
    has version [1] while its leveldb and flatfs are those the transfer
    left. *)
Theorem mg1_Apply_fails_after_transfer (opts : Options) (w : World1) :
  wp (mg1_Apply NewKey opts)
    (fun r w' =>
       r <> None -> EvTransfer "/b/" "" true ∈ step_events1 w w' ->
       let npath := replace_first ".go-ipfs" ".ipfs" (Path opts) in
       exists repo ldb' fds' p,
         fs w !! Path opts = Some (RepoDir repo) /\
         transferBlocks NewKey (r_ldb repo) (flatfs_of repo) "/b/" "" = (None, ldb', fds') /\
         (p = Path opts \/ p = npath) /\
         fs w' !! p = Some (RepoDir {| r_version := "1"; r_ldb := ldb';
                                       r_blocks := Some fds' |})) w.
Proof.
  mstart1 w. mrun. all: norm_events; cbn [fs]; cbv zeta.
  all: try (intros Hr; by destruct Hr).
  all: intros _ Hin; inv_elem Hin.
  all: try (exfalso; simplify_map_eq; fail).
  all: rewrite ?delete_insert_id in * by assumption.
  all: simplify_map_eq.
  all: match goal with Hv : r_version _ = "1" |- _ => rewrite ?Hv end.
  all: eexists _, _, _, _; split; [reflexivity|]; split; [eassumption|].
  all: first [ split; [by left|]; by simplify_map_eq
             | split; [by right|]; by simplify_map_eq ].
Qed.

(** ** The version check of the 1-to-2 step, and Revert in place *)

(** X17.  When the version check fails (there is no repo at the path, or
    its version is not [1] for [Apply], not [2] for [Revert]) the step
    returns the error of the check, does nothing else and leaves the file
    system as it was. *)
Theorem mg1_version_check_guards (opts : Options) (w : World1) (e : error) :
  (version_check_error "1" w (Path opts) = Some e ->
   wp (mg1_Apply NewKey opts)
     (fun r w' =>
        r = Some e /\ fs w' = fs w /\
        step_events1 w w' = [EvCheckVersion (Path opts) "1" false]) w) /\
  (version_check_error "2" w (Path opts) = Some e ->
   wp (mg1_Revert NewKey opts)
     (fun r w' =>
        r = Some e /\ fs w' = fs w /\
        step_events1 w w' = [EvCheckVersion (Path opts) "2" false]) w).
Proof.
  split; intros Hv; mstart1 w; unfold version_check_error in Hv; cbn [fs] in Hv.
  all: mrun with (try (exfalso; case_decide; congruence)).
  all: norm_events; cbn [fs].
  all: try case_decide; try congruence.
  all: split; [congruence|done].
Qed.


End Mg1Further.

Section WireProperties.

Variable ReadVarInt : list Byte.byte -> (Z + wire_error) * list Byte.byte.
Variable WriteVarInt : Z -> list Byte.byte.
Variable VarIntLen : Z -> Z.

(** ** The DATA_BLOCKED frame *)

(** X16.  For a frame whose [MaximumData] the varint codec reads back and
    measures rightly, [Write] returns no error and appends to the buffer
    the type byte [0x14] followed by the varint; [Length] is the number of
    bytes appended; and [parseDataBlockedFrame] reads the frame back from
    these bytes and leaves what follows them in the reader.  The parser
    does not look at the type byte: it reads the same frame whatever the
    first byte is. *)
Theorem DataBlockedFrame_round_trip (f : DataBlockedFrame) (b rest : list Byte.byte) :
  ReadVarInt (WriteVarInt (MaximumData f) ++ rest) = (inl (MaximumData f), rest) ->
  Z.of_nat (List.length (WriteVarInt (MaximumData f))) = VarIntLen (MaximumData f) ->
  exists frame,
    DataBlockedFrame_Write WriteVarInt f b = (None, (b ++ frame)%list) /\
    Z.of_nat (List.length frame) = DataBlockedFrame_Length VarIntLen f /\
    parseDataBlockedFrame ReadVarInt (frame ++ rest) = (inl f, rest) /\
    (forall t, parseDataBlockedFrame ReadVarInt (t :: drop 1 frame ++ rest) = (inl f, rest)).
Proof.
  intros Hrt Hlen. exists (Byte.x14 :: WriteVarInt (MaximumData f)).
  split; [|split; [|split]].
  - unfold DataBlockedFrame_Write. by rewrite <- app_assoc.
  - unfold DataBlockedFrame_Length. cbn [List.length]. lia.
  - unfold parseDataBlockedFrame. cbn. rewrite Hrt. by destruct f.
  - intros t. unfold parseDataBlockedFrame. cbn. rewrite drop_0, Hrt. by destruct f.
Qed.

End WireProperties.

(** * Further instances *)

(** X1, instance.  [Revert] on the migrated [one_block] repo, when closing
    the backup file fails: the error is returned, the backup file is still
    there, and the version is [8] already. *)
Lemma revert_close_failure_after_version_reset :
  exists w',
    mg8_Revert clean_key sample_opts
      (with_faults (repo9 one_block_migrated one_block_log) close_fails) =
      (Some (ErrSys SysCloseBackup), w') /\
    backup w' = Some one_block_log /\ version w' = "8".
Proof.
  destruct (mg8_Revert clean_key sample_opts
              (with_faults (repo9 one_block_migrated one_block_log) close_fails))
    as [r w'] eqn:E.
  assert (r = Some (ErrSys SysCloseBackup)) as ->
    by (apply (f_equal fst) in E; vm_compute in E; congruence).
  destruct (wp_run _ _ _ (mg8_Revert_error_outcome clean_key sample_opts _) _ _ E
              _ eq_refl) as [Hbk _].
  exists w'. split; [reflexivity|]. split; [exact Hbk|].
  apply (f_equal snd) in E. cbn [snd] in E. rewrite <- E. vm_compute. reflexivity.
Defined.

(** X2, instance.  [Revert] on a migrated repo whose backup file is gone. *)
Lemma revert_of_a_repo_without_backup :
  exists w',
    mg8_Revert clean_key sample_opts (repo9_without_backup one_block_migrated) =
      (Some (ErrNotExist "/home/u/.ipfs/8-to-9-cids.txt"), w') /\
    blocks w' = plain_store one_block_migrated /\ version w' = "9" /\
    lock w' = Unlocked.
Proof.
  destruct (mg8_Revert clean_key sample_opts (repo9_without_backup one_block_migrated))
    as [r w'] eqn:E.
  destruct (wp_run _ _ _
              (mg8_Revert_without_backup clean_key sample_opts
                 (repo9_without_backup one_block_migrated)
                 eq_refl eq_refl eq_refl eq_refl eq_refl eq_refl) _ _ E)
    as (-> & _ & _ & Hb & Hv & _ & Hl).
  exists w'. split; [reflexivity|]. split; [exact Hb|]. split; [exact Hv|exact Hl].
Defined.

(** X5, instance.  [Apply] on a repo that still has a backup file of an
    earlier run: the warning is logged and the file grows. *)
Lemma apply_appends_to_an_old_backup :
  exists w' added,
    mg8_Apply sample_newKeyOf sample_opts
      (repo8_with_backup one_block (backup_line swap_xyz)) = (None, w') /\
    backup w' = Some (backup_line swap_xyz +:+ added) /\
    backup_exists_warning sample_opts ∈
      step_output (repo8_with_backup one_block (backup_line swap_xyz)) w'.
Proof.
  destruct (mg8_Apply sample_newKeyOf sample_opts
              (repo8_with_backup one_block (backup_line swap_xyz))) as [r w'] eqn:E.
  assert (r = None) as -> by (apply (f_equal fst) in E; vm_compute in E; congruence).
  destruct (wp_run _ _ _ (mg8_Apply_only_appends sample_newKeyOf sample_opts _) _ _ E)
    as [Hopen _].
  destruct Hopen as [[added Hadd] Hwarn].
  { apply (f_equal snd) in E. cbn [snd] in E. rewrite <- E. vm_compute. elem_solve. }
  exists w', added. split; [reflexivity|]. split; [exact Hadd|].
  apply Hwarn. by eexists.
Defined.


(** X7, instance.  The record of a swap with a comma in its old key. *)
Lemma comma_key_line_is_rejected :
  exists w',
    scanner_goroutine clean_key (backup_line swap_comma) (repo9 ∅ EmptyString) = ([], w') /\
    step_output (repo9 ∅ EmptyString) w' = [bad_line_report (record_text swap_comma)].
Proof.
  apply (comma_key_is_not_read_back clean_key swap_comma (repo9 ∅ EmptyString));
    reflexivity.
Defined.

(** X9, instance.  [Apply] on a repo at [/home/u/repo]. *)
Lemma apply_on_a_plain_path_is_refused :
  exists w',
    mg1_Apply clean_key sample_opts_plain (world1_plain five_blocks) =
      (Some (ErrExist "/home/u/repo"), w') /\
    fs w' = fs (world1_plain five_blocks).
Proof.
  destruct (mg1_Apply clean_key sample_opts_plain (world1_plain five_blocks))
    as [r w'] eqn:E.
  destruct (wp_run _ _ _
              (mg1_Apply_needs_go_ipfs clean_key sample_opts_plain
                 (world1_plain five_blocks) eq_refl) _ _ E) as (_ & Hfs & Herr).
  rewrite (Herr _ (lookup_singleton_eq _ _) eq_refl eq_refl).
  exists w'. split; [reflexivity|exact Hfs].
Defined.

(** X10, instance.  A transfer of the five blocks that fails at the [Put]
    of the third key: every block is still in leveldb, or it is in flatfs
    and gone from leveldb. *)
Lemma failed_transfer_loses_nothing :
  exists from' to',
    transferBlocks clean_key (plain_store five_blocks) flatfs_put_fails "/b/" "" =
      (Some (ErrPut "/k3"), from', to') /\
    forall K v, five_blocks !! K = Some v ->
      entries from' !! K = Some v \/
      (has_prefix "/b/" K = true /\ entries from' !! K = None /\
       entries to' !! clean_key (str_drop 3 K) = Some v).
Proof.
  destruct (transferBlocks clean_key (plain_store five_blocks) flatfs_put_fails "/b/" "")
    as [[r from'] to'] eqn:E.
  assert (r = Some (ErrPut "/k3")) as ->.
  { apply (f_equal (fun x => fst (fst x))) in E. vm_compute in E. congruence. }
  exists from', to'. split; [reflexivity|]. intros K v HK.
  apply (transferBlocks_loses_nothing clean_key (plain_store five_blocks) flatfs_put_fails
           from' to' "/b/" "" (Some (ErrPut "/k3"))); [| |exact E|exact HK].
  - vm_compute. repeat constructor.
  - apply (bool_decide_unpack _). vm_compute. exact I.
Defined.

(** X11, instance.  A transfer of the five blocks next to a key outside
    the prefix: that key stays in leveldb. *)
Lemma transfer_leaves_local_key :
  exists from' to',
    transferBlocks clean_key (plain_store blocks_and_local) (plain_store ∅) "/b/" "" =
      (None, from', to') /\
    entries from' !! "/local/x" = Some bytes45.
Proof.
  destruct (transferBlocks clean_key (plain_store blocks_and_local) (plain_store ∅) "/b/" "")
    as [[r from'] to'] eqn:E.
  assert (r = None) as ->.
  { apply (f_equal (fun x => fst (fst x))) in E. vm_compute in E. congruence. }
  exists from', to'. split; [reflexivity|].
  destruct (transferBlocks_touches_only_the_prefix clean_key (plain_store blocks_and_local)
              (plain_store ∅) from' to' "/b/" "" None) as [Hfrom _]; [|exact E|].
  - vm_compute. repeat constructor.
  - rewrite Hfrom by reflexivity. vm_compute. reflexivity.
Defined.

(** X12, instance.  [Apply] on the version-1 repo of five blocks. *)
Lemma apply_moves_the_repo :
  exists w' repo',
    mg1_Apply clean_key sample_opts1 (world1 five_blocks) = (None, w') /\
    fs w' !! "/home/u/.ipfs" = Some (RepoDir repo') /\ r_version repo' = "2" /\
    fs w' !! "/home/u/.go-ipfs" = None.
Proof.
  destruct (mg1_Apply clean_key sample_opts1 (world1 five_blocks)) as [r w'] eqn:E.
  assert (r = None) as -> by (apply (f_equal fst) in E; vm_compute in E; congruence).
  destruct (wp_run _ _ _ (mg1_Apply_success clean_key sample_opts1 _) _ _ E eq_refl)
    as (repo & ldb' & fds' & _ & _ & Hne & _ & _ & Hfs & _).
  eexists w', _. split; [reflexivity|]. rewrite Hfs. split; [apply lookup_insert_eq|].
  split; [reflexivity|].
  rewrite lookup_insert_ne by (intros H; by apply Hne). apply lookup_delete_eq.
Defined.

(** X14, instance.  [Revert] after [Apply] on the version-1 repo of five
    blocks. *)
Lemma revert_after_apply_five_blocks :
  exists w1 w2,
    mg1_Apply clean_key sample_opts1 (world1 five_blocks) = (None, w1) /\
    mg1_Revert clean_key {| Path := "/home/u/.ipfs"; Verbose := false |} w1 = (None, w2) /\
    fs w2 = fs (world1 five_blocks).
Proof.
  destruct (mg1_Apply clean_key sample_opts1 (world1 five_blocks)) as [r w1] eqn:E.
  assert (r = None) as -> by (apply (f_equal fst) in E; vm_compute in E; congruence).
  destruct (mg1_Revert_after_Apply clean_key sample_opts1 (world1 five_blocks) w1
              {| r_version := "1"; r_ldb := plain_store five_blocks; r_blocks := None |})
    as (w2 & Hrev & Hfs).
  - apply lookup_singleton_eq.
  - reflexivity.
  - repeat split.
  - unfold keys_round_trip. vm_compute. repeat constructor.
  - reflexivity.
  - reflexivity.
  - exact E.
  - exists w1, w2. split; [reflexivity|]. split; [exact Hrev|exact Hfs].
Defined.

(** X15, instance.  [Apply] on the version-1 repo of five blocks when the
    renaming fails: the repo has version [1] and a blocks directory. *)
Lemma apply_with_failing_rename :
  exists w' p repo',
    mg1_Apply clean_key sample_opts1 (world1_with_faults (world1 five_blocks) rename_fails) =
      (Some (ErrSys (SysRename "/home/u/.go-ipfs" "/home/u/.ipfs")), w') /\
    fs w' !! p = Some (RepoDir repo') /\ r_version repo' = "1" /\
    is_Some (r_blocks repo').
Proof.
  destruct (mg1_Apply clean_key sample_opts1
              (world1_with_faults (world1 five_blocks) rename_fails)) as [r w'] eqn:E.
  assert (r = Some (ErrSys (SysRename "/home/u/.go-ipfs" "/home/u/.ipfs"))) as ->
    by (apply (f_equal fst) in E; vm_compute in E; congruence).
  destruct (wp_run _ _ _ (mg1_Apply_fails_after_transfer clean_key sample_opts1 _) _ _ E)
    as (repo & ldb' & fds' & p & _ & _ & _ & Hp).
  - discriminate.
  - apply (f_equal snd) in E. cbn [snd] in E. rewrite <- E. vm_compute. elem_solve.
  - eexists w', p, _. split; [reflexivity|]. split; [exact Hp|].
    split; [reflexivity|]. by eexists.
Defined.

(** X16, instance.  The frame for [MaximumData = 1000] takes three bytes
    and is read back in front of another byte. *)
Lemma DataBlockedFrame_round_trip_1000 :
  exists frame,
    DataBlockedFrame_Write sample_WriteVarInt {| MaximumData := 1000 |} [] = (None, frame) /\
    DataBlockedFrame_Length sample_VarIntLen {| MaximumData := 1000 |} = 3%Z /\
    Z.of_nat (List.length frame) = 3%Z /\
    parseDataBlockedFrame sample_ReadVarInt (frame ++ [Byte.xff])%list =
      (inl {| MaximumData := 1000 |}, [Byte.xff]).
Proof.
  destruct (DataBlockedFrame_round_trip sample_ReadVarInt sample_WriteVarInt
              sample_VarIntLen {| MaximumData := 1000 |} [] [Byte.xff])
    as (frame & Hw & Hl & Hp & _).
  - vm_compute. reflexivity.
  - vm_compute. reflexivity.
  - exists frame. split; [exact Hw|]. split; [reflexivity|].
    split; [exact Hl|exact Hp].
Defined.

(** X17, instance.  [Revert] of the 1-to-2 step on a repo of version [1]. *)
Lemma revert_of_a_version_1_repo_is_refused :
  exists w',
    mg1_Revert clean_key sample_opts1 (world1 five_blocks) =
      (Some (ErrVersionsDiffer "2" "1"), w') /\
    fs w' = fs (world1 five_blocks).
Proof.
  destruct (mg1_Revert clean_key sample_opts1 (world1 five_blocks)) as [r w'] eqn:E.
  destruct (wp_run _ _ _
              (proj2 (mg1_version_check_guards clean_key sample_opts1 (world1 five_blocks)
                        (ErrVersionsDiffer "2" "1")) eq_refl) _ _ E) as (-> & Hfs & _).
  exists w'. split; [reflexivity|exact Hfs].
Defined.

